(** * Gemini model auto-selection and retry orchestration

    A shallow embedding of [api/answer-question.ts]: the retrying
    transport ([postJsonWithRetry]), the catalog listing ([listModels]),
    the generation call ([generateContent]) and the version/model
    selection loop ([generateWithAutoPick]).

    The upstream service is an arbitrary deterministic state machine
    ([fetch] over a type [World]); every computation returns its result,
    the final upstream state and the trace of the effects it performed
    (HTTP requests, sleeps, console warnings). *)

From stdpp Require Import base decidable option list strings pretty gmap.
From Stdlib Require Import ZArith Lia Ascii.

Local Open Scope Z_scope.

Set Warnings "-clear-no-such-hyp,-register-all".

(** ** JavaScript strings *)

Module JsString.

(** [hay.includes(needle)] *)
Fixpoint includes (needle hay : string) : bool :=
  String.prefix needle hay ||
  match hay with
  | EmptyString => false
  | String _ hay' => includes needle hay'
  end.

(** Removal of a leading [p], when there is one. *)
Fixpoint strip_prefix (p s : string) : option string :=
  match p, s with
  | EmptyString, _ => Some s
  | String a p', String b s' =>
      if Ascii.eqb a b then strip_prefix p' s' else None
  | String _ _, EmptyString => None
  end.

(** [s.replace(/^p/, '')] for a literal [p]. *)
Definition replace_leading (p s : string) : string :=
  match strip_prefix p s with
  | Some rest => rest
  | None => s
  end.

(** The one-byte white space and line terminators of ECMAScript:
    TAB, LF, VT, FF, CR and SPACE. *)
Definition ws1 (c : ascii) : bool :=
  let n := nat_of_ascii c in
  ((9 <=? n)%nat && (n <=? 13)%nat) || (n =? 32)%nat.

(** U+00A0, as the UTF-8 bytes C2 A0. *)
Definition ws2 (c1 c2 : ascii) : bool :=
  (nat_of_ascii c1 =? 194)%nat && (nat_of_ascii c2 =? 160)%nat.

(** The three-byte ones: U+1680, U+2000..U+200A, U+2028, U+2029,
    U+202F, U+205F, U+3000 and U+FEFF. *)
Definition ws3 (c1 c2 c3 : ascii) : bool :=
  let a := nat_of_ascii c1 in
  let b := nat_of_ascii c2 in
  let c := nat_of_ascii c3 in
  ((a =? 225) && (b =? 154) && (c =? 128))%nat
  || ((a =? 226) && (b =? 128) &&
      (((128 <=? c) && (c <=? 138)) || (c =? 168) || (c =? 169) || (c =? 175)))%nat
  || ((a =? 226) && (b =? 129) && (c =? 159))%nat
  || ((a =? 227) && (b =? 128) && (c =? 128))%nat
  || ((a =? 239) && (b =? 187) && (c =? 191))%nat.

(** [s.trim() === ''] : every character of [s] is white space. *)
Fixpoint trim_is_empty (s : string) : bool :=
  match s with
  | EmptyString => true
  | String c1 r1 =>
      if ws1 c1 then trim_is_empty r1
      else match r1 with
           | EmptyString => false
           | String c2 r2 =>
               if ws2 c1 c2 then trim_is_empty r2
               else match r2 with
                    | EmptyString => false
                    | String c3 r3 =>
                        if ws3 c1 c2 c3 then trim_is_empty r3 else false
                    end
           end
  end.

(** Truthiness of a string: [''] is the only falsy one. *)
Definition truthy (s : string) : bool :=
  match s with EmptyString => false | String _ _ => true end.

(** The double-quote character (code 34). *)
Definition dquote : string :=
  String (Ascii.Ascii false true false false false true false false) EmptyString.

End JsString.

(** ** JSON values, as [JSON.parse] produces them *)

Inductive JSON : Type :=
| JNull
| JBool (b : bool)
| JNum (literal : string)
| JStr (s : string)
| JArr (items : list JSON)
| JObj (fields : list (string * JSON)).

Module Js.

(** The properties of an object, each key once (the parser has resolved
    repeated keys). *)
Fixpoint lookup_field (k : string) (fields : list (string * JSON)) : option JSON :=
  match fields with
  | [] => None
  | (k', v) :: rest => if String.eqb k k' then Some v else lookup_field k rest
  end.

(** [v?.k] for the property names this program reads ([candidates],
    [content], [parts], [text], [models], [name],
    [supportedGenerationMethods]); [None] is [undefined]. None of them
    is a property of a string, number, boolean or array. *)
Definition prop (v : option JSON) (k : string) : option JSON :=
  match v with
  | Some (JObj fields) => lookup_field k fields
  | _ => None
  end.

(** [v?.[0]]. On a string it is the first character (here its first
    byte; the program only ever reads a named property of it next,
    which is [undefined]). *)
Definition index0 (v : option JSON) : option JSON :=
  match v with
  | Some (JArr items) => head items
  | Some (JStr (String c _)) => Some (JStr (String c EmptyString))
  | Some (JObj fields) => lookup_field "0" fields
  | _ => None
  end.

(** [typeof v === 'string'], with the string. *)
Definition as_string (v : option JSON) : option string :=
  match v with
  | Some (JStr s) => Some s
  | _ => None
  end.

(** [Array.isArray(v)], with the items. *)
Definition as_array (v : option JSON) : option (list JSON) :=
  match v with
  | Some (JArr items) => Some items
  | _ => None
  end.

Definition is_string_lit (lit : string) (v : JSON) : bool :=
  match v with
  | JStr s => String.eqb s lit
  | _ => false
  end.

(** [items.includes(lit)] for a string literal. *)
Definition array_includes (items : list JSON) (lit : string) : bool :=
  existsb (is_string_lit lit) items.

End Js.

(** ** Pure helpers of the source *)

Inductive GeminiApiVersion : Type := V1beta | V1.

Definition version_str (v : GeminiApiVersion) : string :=
  match v with V1beta => "v1beta" | V1 => "v1" end.

(** A [GeminiModel] is whatever JSON value sits in the [models] array:
    the cast in [listModels] checks nothing. *)
Definition GeminiModel : Type := JSON.

Definition model_name (m : GeminiModel) : option string :=
  Js.as_string (Js.prop (Some m) "name").

Definition isRetryableStatus (status : Z) : bool :=
  (status =? 429) || (status =? 500) || (status =? 502) || (status =? 503) || (status =? 504).

Definition shortModelName (fullName : string) : string :=
  JsString.replace_leading "models/" fullName.

Definition modelSupportsGenerateContent (m : GeminiModel) : bool :=
  match Js.as_array (Js.prop (Some m) "supportedGenerationMethods") with
  | None => true
  | Some [] => true
  | Some methods => Js.array_includes methods "generateContent"
  end.

Definition isGeminiNotFoundOrUnsupported (errMsg : string) : bool :=
  JsString.includes ": 404" errMsg
  || JsString.includes (JsString.dquote +:+ "code" +:+ JsString.dquote +:+ ": 404") errMsg
  || JsString.includes "NOT_FOUND" errMsg
  || JsString.includes "not supported" errMsg.

(** [resp.ok] *)
Definition status_ok (status : Z) : bool := (200 <=? status) && (status <=? 299).

(** ** Effects: results, traces and the computation monad *)

(** A thrown value. Every value this program throws or catches is an
    [Error] object, read through [String(e?.message ?? e)]. *)
Record JsError : Type := Error { message : string }.

Record RequestInit : Type := {
  method : string;
  headers : list (string * string);
  body : option string
}.

(** The response once [resp.text()] has been read. *)
Record Response : Type := { status : Z; raw : string }.

(** What one [fetch] (with the reading of the body) comes to: a response
    of any status, or a thrown transport error (network failure, abort
    on timeout). *)
Inductive Outcome : Type :=
| Responded (r : Response)
| Failed (e : JsError).

Inductive Event : Type :=
| EvFetch (url : string) (init : RequestInit) (timeoutMs : Z)
| EvSleep (ms : Z)
| EvWarn (msg : string).

Inductive Result (A : Type) : Type :=
| Ok (a : A)
| Throw (e : JsError).
Arguments Ok {A} a.
Arguments Throw {A} e.

Record Run (W A : Type) : Type := MkRun {
  result : Result A;
  final : W;
  trace : list Event
}.
Arguments MkRun {W A} result final trace.
Arguments result {W A} r.
Arguments final {W A} r.
Arguments trace {W A} r.

Definition M (W A : Type) : Type := W -> Run W A.

Definition ret {W A} (a : A) : M W A := fun w => MkRun (Ok a) w [].

Definition throw {W A} (e : JsError) : M W A := fun w => MkRun (Throw e) w [].

Definition emit {W} (ev : Event) : M W unit := fun w => MkRun (Ok tt) w [ev].

Definition bind {W A B} (m : M W A) (k : A -> M W B) : M W B :=
  fun w =>
    let r := m w in
    match result r with
    | Ok a =>
        let r' := k a (final r) in
        MkRun (result r') (final r') (trace r ++ trace r')
    | Throw e => MkRun (Throw e) (final r) (trace r)
    end.

(** [try { m } catch (e) { handler e }] *)
Definition try_catch {W A} (m : M W A) (handler : JsError -> M W A) : M W A :=
  fun w =>
    let r := m w in
    match result r with
    | Ok a => r
    | Throw e =>
        let r' := handler e (final r) in
        MkRun (result r') (final r') (trace r ++ trace r')
    end.

Global Instance M_ret {W} : MRet (M W) := fun A => @ret W A.
Global Instance M_bind {W} : MBind (M W) := fun A B k m => @bind W A B m k.

Definition sleep {W} (ms : Z) : M W unit := emit (EvSleep ms).

(** [console.warn(msg)] *)
Definition warn {W} (msg : string) : M W unit := emit (EvWarn msg).

(** How an iteration of a loop ends when it does not throw. *)
Inductive LoopStep (C A : Type) : Type :=
| Continue (c : C)
| Return (a : A).
Arguments Continue {C A} c.
Arguments Return {C A} a.

Definition preferred : list string :=
  ["gemini-2.5-flash"; "gemini-2.0-flash"; "gemini-2.0-flash-001"; "gemini-2.0-flash-lite"].

(** The three locals of [generateWithAutoPick] computed from a catalog. *)
Definition has_string_name (m : GeminiModel) : bool :=
  bool_decide (is_Some (model_name m)).

(** [m.name as string], read after [has_string_name] has filtered. *)
Definition name_of (m : GeminiModel) : string := default "" (model_name m).

Definition available_of (models : list GeminiModel) : list string :=
  filter (fun n => JsString.truthy n = true)
    ((fun m => shortModelName (name_of m)) <$>
       filter (fun m => has_string_name m = true) models).

Definition generateCapable_of (models : list GeminiModel) : gset string :=
  list_to_set
    ((fun m => shortModelName (name_of m)) <$>
       filter (fun m => has_string_name m && modelSupportsGenerateContent m = true) models).

Definition push_absent (candidates : list string) (a : string) : list string :=
  if bool_decide (a ∈ candidates) then candidates else candidates ++ [a].

Definition candidates_of (available : list string) : list string :=
  foldl push_absent (filter (fun p => p ∈ available) preferred) available.

(** [generateCapable.size > 0 && !generateCapable.has(model)] *)
Definition skipped (generateCapable : gset string) (model : string) : bool :=
  bool_decide (0 < size generateCapable)%nat && negb (bool_decide (model ∈ generateCapable)).

Record Selection : Type := { sel_version : GeminiApiVersion; sel_model : string; sel_text : string }.

(** ** The program, over an arbitrary upstream *)

Section Program.

Context {World : Type}.

(** The platform: [JSON.parse] (a [SyntaxError] message or the value),
    [JSON.stringify], and [fetch] followed by [resp.text()], which the
    upstream answers from its current state. *)
Variable JSON_parse : string -> string + JSON.
Variable JSON_stringify : JSON -> string.
Variable fetch : string -> RequestInit -> Z -> World -> Outcome * World.

Local Abbreviation Comp := (M World).

(** The timer of the source is cleared on every path and has no other
    effect: the timeout is an input of the upstream's answer. *)
Definition fetchWithTimeout (url : string) (init : RequestInit) (timeoutMs : Z)
  : Comp Response :=
  fun w =>
    let (o, w') := fetch url init timeoutMs w in
    MkRun (match o with Responded r => Ok r | Failed e => Throw e end)
          w' [EvFetch url init timeoutMs].

Definition backoff (i : nat) : Z := 800 * 2 ^ Z.of_nat i.

Definition warn_retryable (st wait : Z) : string :=
  "[WARN] Retryable status " +:+ pretty st +:+ ". wait=" +:+ pretty wait +:+ "ms".

Definition warn_network (wait : Z) (e : JsError) : string :=
  "[WARN] Network/timeout error. retry wait=" +:+ pretty wait +:+ "ms err=" +:+ message e.

(** One iteration of the [for] loop of [postJsonWithRetry], at index
    [i]: [Continue] carries the new [lastErr]. *)
Definition retry_body (url : string) (init : RequestInit) (timeoutMs : Z)
           (retries i : nat) (lastErr : option JsError)
  : Comp (LoopStep (option JsError) Response) :=
  try_catch
    (resp ← fetchWithTimeout url init timeoutMs;
     if status_ok (status resp) then mret (Return resp)
     else if isRetryableStatus (status resp) && (i <? retries)%nat then
       let wait := backoff i in
       warn (warn_retryable (status resp) wait);;
       sleep wait;;
       mret (Continue lastErr)
     else mret (Return resp))
    (fun e =>
       if (i <? retries)%nat then
         let wait := backoff i in
         warn (warn_network wait e);;
         sleep wait;;
         mret (Continue (Some e))
       else throw e).

(** The loop from index [i], with [remaining] iterations left before
    [i <= retries] fails; falling out of it throws
    [lastErr ?? new Error('Unknown error')]. *)
Fixpoint retry_loop (url : string) (init : RequestInit) (timeoutMs : Z)
         (retries : nat) (remaining i : nat) (lastErr : option JsError)
  : Comp Response :=
  match remaining with
  | O => throw (default (Error "Unknown error") lastErr)
  | S remaining' =>
      step ← retry_body url init timeoutMs retries i lastErr;
      match step with
      | Return resp => mret resp
      | Continue lastErr' =>
          retry_loop url init timeoutMs retries remaining' (S i) lastErr'
      end
  end.

Definition postJsonWithRetry (url : string) (init : RequestInit)
           (timeoutMs : Z) (retries : nat) : Comp Response :=
  retry_loop url init timeoutMs retries (S retries) 0 None.

Definition api_root : string := "https://generativelanguage.googleapis.com/".

Definition list_url (version : GeminiApiVersion) : string :=
  api_root +:+ version_str version +:+ "/models".

Definition list_init (apiKey : string) : RequestInit :=
  {| method := "GET"; headers := [("x-goog-api-key", apiKey)]; body := None |}.

Definition list_failed_msg (version : GeminiApiVersion) (resp : Response) : string :=
  "ListModels failed (" +:+ version_str version +:+ "): "
    +:+ pretty (status resp) +:+ " " +:+ raw resp.

Definition listModels (version : GeminiApiVersion) (apiKey : string)
  : Comp (list GeminiModel) :=
  resp ← fetchWithTimeout (list_url version) (list_init apiKey) 15000;
  if negb (status_ok (status resp)) then
    throw (Error (list_failed_msg version resp))
  else
    match JSON_parse (raw resp) with
    | inl syntax_error => throw (Error syntax_error)
    | inr data =>
        mret (default [] (Js.as_array (Js.prop (Some data) "models")))
    end.

Definition generate_url (version : GeminiApiVersion) (model : string) : string :=
  api_root +:+ version_str version +:+ "/models/" +:+ model +:+ ":generateContent".

Definition generate_payload (prompt : string) : JSON :=
  JObj [("contents",
         JArr [JObj [("role", JStr "user");
                     ("parts", JArr [JObj [("text", JStr prompt)]])]])].

Definition generate_init (apiKey prompt : string) : RequestInit :=
  {| method := "POST";
     headers := [("x-goog-api-key", apiKey); ("Content-Type", "application/json")];
     body := Some (JSON_stringify (generate_payload prompt)) |}.

Definition generate_failed_msg (version : GeminiApiVersion) (model : string)
           (resp : Response) : string :=
  "Gemini generateContent failed (" +:+ version_str version +:+ "/" +:+ model +:+ "): "
    +:+ pretty (status resp) +:+ " " +:+ raw resp.

Definition empty_response_msg (version : GeminiApiVersion) (model : string)
           (resp : Response) : string :=
  "Gemini response is empty (" +:+ version_str version +:+ "/" +:+ model +:+ "). raw="
    +:+ raw resp.

(** [data?.candidates?.[0]?.content?.parts?.[0]?.text] *)
Definition generated_text (data : JSON) : option JSON :=
  Js.prop (Js.index0 (Js.prop (Js.prop (Js.index0 (Js.prop (Some data) "candidates"))
                                        "content") "parts")) "text".

Definition generateContent (version : GeminiApiVersion) (model apiKey prompt : string)
  : Comp string :=
  resp ← postJsonWithRetry (generate_url version model)
                           (generate_init apiKey prompt) 30000 3;
  if negb (status_ok (status resp)) then
    throw (Error (generate_failed_msg version model resp))
  else
    match JSON_parse (raw resp) with
    | inl syntax_error => throw (Error syntax_error)
    | inr data =>
        match Js.as_string (generated_text data) with
        | Some text =>
            if JsString.trim_is_empty text then
              throw (Error (empty_response_msg version model resp))
            else mret text
        | None => throw (Error (empty_response_msg version model resp))
        end
    end.

Definition warn_generate_failed (msg : string) : string :=
  "[WARN] generateContent failed: " +:+ msg.

Definition warn_list_failed (version : GeminiApiVersion) (e : JsError) : string :=
  "[WARN] listModels failed (" +:+ version_str version +:+ "): " +:+ message e.

(** One iteration of [for (const model of candidates)]. *)
Definition candidate_body (version : GeminiApiVersion) (apiKey prompt : string)
           (generateCapable : gset string) (model : string)
  : Comp (LoopStep unit Selection) :=
  if skipped generateCapable model then mret (Continue tt)
  else
    try_catch
      (text ← generateContent version model apiKey prompt;
       mret (Return {| sel_version := version; sel_model := model; sel_text := text |}))
      (fun e =>
         let msg := message e in
         warn (warn_generate_failed msg);;
         if isGeminiNotFoundOrUnsupported msg then mret (Continue tt)
         else throw e).

(** The candidate loop; [None] when it runs out of candidates. *)
Fixpoint candidate_loop (version : GeminiApiVersion) (apiKey prompt : string)
         (generateCapable : gset string) (candidates : list string)
  : Comp (option Selection) :=
  match candidates with
  | [] => mret None
  | model :: rest =>
      step ← candidate_body version apiKey prompt generateCapable model;
      match step with
      | Return sel => mret (Some sel)
      | Continue _ => candidate_loop version apiKey prompt generateCapable rest
      end
  end.

(** One iteration of [for (const version of ['v1beta', 'v1'])]. *)
Definition version_body (apiKey prompt : string) (version : GeminiApiVersion)
  : Comp (option Selection) :=
  listed ← try_catch
             (models ← listModels version apiKey; mret (Some models))
             (fun e => warn (warn_list_failed version e);; mret None);
  match listed with
  | None => mret None
  | Some models =>
      let available := available_of models in
      let generateCapable := generateCapable_of models in
      let candidates := candidates_of available in
      candidate_loop version apiKey prompt generateCapable candidates
  end.

Fixpoint version_loop (apiKey prompt : string) (versions : list GeminiApiVersion)
  : Comp (option Selection) :=
  match versions with
  | [] => mret None
  | version :: rest =>
      found ← version_body apiKey prompt version;
      match found with
      | Some sel => mret (Some sel)
      | None => version_loop apiKey prompt rest
      end
  end.

Definition exhausted : JsError :=
  Error "No working Gemini model found (checked v1beta/v1).".

Definition generateWithAutoPick (apiKey prompt : string) : Comp Selection :=
  found ← version_loop apiKey prompt [V1beta; V1];
  match found with
  | Some sel => mret sel
  | None => throw exhausted
  end.

End Program.

(** ** Results in closed form *)

Section ClosedForms.

Variable JSON_parse : string -> string + JSON.

(** What [listModels] makes of the one outcome it gets. *)
Definition listing_result (version : GeminiApiVersion) (o : Outcome)
  : Result (list GeminiModel) :=
  match o with
  | Failed e => Throw e
  | Responded resp =>
      if status_ok (status resp) then
        match JSON_parse (raw resp) with
        | inl syntax_error => Throw (Error syntax_error)
        | inr data => Ok (default [] (Js.as_array (Js.prop (Some data) "models")))
        end
      else Throw (Error (list_failed_msg version resp))
  end.

(** What [generateContent] makes of the retrier's result. *)
Definition generation_result (version : GeminiApiVersion) (model : string)
           (r : Result Response) : Result string :=
  match r with
  | Throw e => Throw e
  | Ok resp =>
      if status_ok (status resp) then
        match JSON_parse (raw resp) with
        | inl syntax_error => Throw (Error syntax_error)
        | inr data =>
            match Js.as_string (generated_text data) with
            | Some text =>
                if JsString.trim_is_empty text then
                  Throw (Error (empty_response_msg version model resp))
                else Ok text
            | None => Throw (Error (empty_response_msg version model resp))
            end
        end
      else Throw (Error (generate_failed_msg version model resp))
  end.

End ClosedForms.

(** ** Observations on outcomes and traces *)

(** What an outcome is to the caller of the transport: the response, or
    the error thrown. *)
Definition outcome_result (o : Outcome) : Result Response :=
  match o with
  | Responded r => Ok r
  | Failed e => Throw e
  end.

(** An outcome the retrier repeats on: a retryable status or a thrown
    transport error. *)
Definition retryable (o : Outcome) : bool :=
  match o with
  | Responded r => isRetryableStatus (status r)
  | Failed _ => true
  end.

(** The outcomes of [n] successive fetches of one request, from [w]. *)
Fixpoint outcomes {World : Type}
         (fetch : string -> RequestInit -> Z -> World -> Outcome * World)
         (url : string) (init : RequestInit) (timeoutMs : Z)
         (n : nat) (w : World) : list Outcome :=
  match n with
  | O => []
  | S n' =>
      let (o, w') := fetch url init timeoutMs w in
      o :: outcomes fetch url init timeoutMs n' w'
  end.

(** For each HTTP attempt of a trace, in order, the sleeps that came
    since the attempt before it ([pending] collects them). *)
Fixpoint waits_before_attempts (pending : list Z) (tr : list Event) : list (list Z) :=
  match tr with
  | [] => []
  | EvFetch _ _ _ :: tr' => pending :: waits_before_attempts [] tr'
  | EvSleep ms :: tr' => waits_before_attempts (pending ++ [ms]) tr'
  | EvWarn _ :: tr' => waits_before_attempts pending tr'
  end.

Definition is_fetch (ev : Event) : bool :=
  match ev with EvFetch _ _ _ => true | _ => false end.

(** The HTTP attempts of a trace. *)
Definition attempts (tr : list Event) : list Event :=
  List.filter is_fetch tr.

(** The names of a list in order, each at its first place only. *)
Fixpoint first_occurrences (l : list string) : list string :=
  match l with
  | [] => []
  | a :: l' => a :: filter (fun b => b ≠ a) (first_occurrences l')
  end.

(** Modelled after the spec's step 4, to compare with [candidates_of]:
    the preference list filtered to the names present in [available],
    then the remaining names of [available] in catalog order. *)
Definition candidate_order_spec (available : list string) : list string :=
  let front := filter (fun p => p ∈ available) preferred in
  front ++ first_occurrences (filter (fun a => a ∉ front) available).

(** The generated-text field of a parsed response is missing, not a
    string, empty or white space only: the test of [generateContent]. *)
Definition text_missing_or_blank (data : JSON) : bool :=
  match Js.as_string (generated_text data) with
  | Some text => JsString.trim_is_empty text
  | None => true
  end.

(** A listing call that failed in transport (network error, timeout) or
    came back with a status outside 200..299. *)
Definition listing_failed (o : Outcome) : bool :=
  match o with
  | Failed _ => true
  | Responded resp => negb (status_ok (status resp))
  end.

(** How many outcomes at the head of a list are retryable. *)
Fixpoint leading_retryable (os : list Outcome) : nat :=
  match os with
  | [] => O
  | o :: os' => if retryable o then S (leading_retryable os') else O
  end.

(** The (version, model) pair of a selection, if there is one. *)
Definition picked (r : Result Selection) : option (GeminiApiVersion * string) :=
  match r with
  | Ok sel => Some (sel_version sel, sel_model sel)
  | Throw _ => None
  end.

(** What [generateWithAutoPick] hands to its caller once its two loops
    have ended: the selection found, the exhaustion error when nothing
    was found, or the error that stopped them. *)
Definition selection_result (found : Result (option Selection)) : Result Selection :=
  match found with
  | Ok (Some sel) => Ok sel
  | Ok None => Throw exhausted
  | Throw e => Throw e
  end.

(** Two upstream states are related by [R] when every request gets the
    same outcome from both, and leaves them related again: from such
    states two runs observe the same responses throughout. *)
Definition stable_upstream {World : Type} (R : World -> World -> Prop)
           (fetch : string -> RequestInit -> Z -> World -> Outcome * World) : Prop :=
  forall url init timeoutMs w1 w2,
    R w1 w2 ->
    (fetch url init timeoutMs w1).1 = (fetch url init timeoutMs w2).1 /\
    R (fetch url init timeoutMs w1).2 (fetch url init timeoutMs w2).2.

(** A computation that cannot tell two related upstream states apart. *)
Definition same_observations {World A : Type} (R : World -> World -> Prop)
           (m : M World A) : Prop :=
  forall w1 w2,
    R w1 w2 ->
    result (m w1) = result (m w2) /\
    trace (m w1) = trace (m w2) /\
    R (final (m w1)) (final (m w2)).

(** ** Concrete upstreams *)

Module Demo.

Definition q (s : string) : string := JsString.dquote +:+ s +:+ JsString.dquote.

(** [JSON.parse] on the few texts of a table; anything else is taken
    for a syntax error. *)
Definition table_parse (t : list (string * JSON)) (text : string) : string + JSON :=
  match Js.lookup_field text t with
  | Some v => inr v
  | None => inl "Unexpected token in JSON"
  end.

Definition stringify (j : JSON) : string := "{}".

Fixpoint lookup_outcome (url : string) (t : list (string * Outcome)) : Outcome :=
  match t with
  | [] => Failed (Error "fetch failed")
  | (u, o) :: rest => if String.eqb url u then o else lookup_outcome url rest
  end.

(** A stateless upstream: each URL always has the same outcome. *)
Definition table_fetch (t : list (string * Outcome))
           (url : string) (init : RequestInit) (timeoutMs : Z) (w : unit)
  : Outcome * unit :=
  (lookup_outcome url t, w).

(** An upstream that answers from a script, one outcome per request. *)
Definition scripted_fetch (url : string) (init : RequestInit) (timeoutMs : Z)
           (w : list Outcome) : Outcome * list Outcome :=
  match w with
  | [] => (Failed (Error "fetch failed"), [])
  | o :: rest => (o, rest)
  end.

Definition reply (st : Z) (text : string) : Outcome :=
  Responded {| status := st; raw := text |}.

(** A catalog of two models, the less preferred one first. *)
Definition catalog_raw : string :=
  "{" +:+ q "models" +:+ ":[{" +:+ q "name" +:+ ":" +:+ q "models/gemini-2.0-flash"
      +:+ "},{" +:+ q "name" +:+ ":" +:+ q "models/gemini-2.5-flash" +:+ "}]}".

Definition catalog_json : JSON :=
  JObj [("models", JArr [JObj [("name", JStr "models/gemini-2.0-flash")];
                         JObj [("name", JStr "models/gemini-2.5-flash")]])].

Definition answer_raw : string :=
  "{" +:+ q "candidates" +:+ ":[{" +:+ q "content" +:+ ":{" +:+ q "parts" +:+ ":[{"
      +:+ q "text" +:+ ":" +:+ q "hello" +:+ "}]}}]}".

Definition answer_json : JSON :=
  JObj [("candidates",
         JArr [JObj [("content", JObj [("parts", JArr [JObj [("text", JStr "hello")]])])]])].

(** A body without generated text that happens to say "not supported". *)
Definition note_raw : string :=
  "{" +:+ q "note" +:+ ":" +:+ q "not supported" +:+ "}".

Definition note_json : JSON := JObj [("note", JStr "not supported")].

Definition parse : string -> string + JSON :=
  table_parse [(catalog_raw, catalog_json); (answer_raw, answer_json);
               (note_raw, note_json); ("{}", JObj [])].

Definition catalog_models : list GeminiModel :=
  [JObj [("name", JStr "models/gemini-2.0-flash")];
   JObj [("name", JStr "models/gemini-2.5-flash")]].

(** The primary version lists both models; [gemini-2.5-flash] answers
    with [first] and [gemini-2.0-flash] with a proper text. *)
Definition upstream (first : Outcome) : list (string * Outcome) :=
  [(list_url V1beta, reply 200 catalog_raw);
   (generate_url V1beta "gemini-2.5-flash", first);
   (generate_url V1beta "gemini-2.0-flash", reply 200 answer_raw)].

Definition run_with (first : Outcome) : Run unit Selection :=
  generateWithAutoPick parse stringify (table_fetch (upstream first)) "key" "prompt" tt.

(** The same stateless answers, from an upstream that counts requests. *)
Definition counting_fetch (t : list (string * Outcome))
           (url : string) (init : RequestInit) (timeoutMs : Z) (w : nat)
  : Outcome * nat :=
  (lookup_outcome url t, S w).

(** A catalog whose first entry is not a preferred name; its entries
    have no capability list, an empty one, and one naming
    [generateContent]. *)
Definition mixed_models : list GeminiModel :=
  [JObj [("name", JStr "models/text-bison")];
   JObj [("name", JStr "models/gemini-2.0-flash-lite");
         ("supportedGenerationMethods", JArr [])];
   JObj [("name", JStr "models/gemini-2.0-flash");
         ("supportedGenerationMethods", JArr [JStr "generateContent"])];
   JObj [("name", JStr "models/embedding-001");
         ("supportedGenerationMethods", JArr [JStr "embedContent"])]].

(** Both preferred models answer 404 and [text-bison] answers. *)
Definition mixed_upstream : list (string * Outcome) :=
  [(generate_url V1beta "gemini-2.0-flash", reply 404 "");
   (generate_url V1beta "gemini-2.0-flash-lite", reply 404 "");
   (generate_url V1beta "text-bison", reply 200 answer_raw)].

(** The catalog of [mixed_models] as the upstream sends it. *)
Definition mixed_raw : string :=
  "{" +:+ q "models" +:+ ":[{" +:+ q "name" +:+ ":" +:+ q "models/text-bison"
      +:+ "},{" +:+ q "name" +:+ ":" +:+ q "models/gemini-2.0-flash-lite"
      +:+ "," +:+ q "supportedGenerationMethods" +:+ ":[]"
      +:+ "},{" +:+ q "name" +:+ ":" +:+ q "models/gemini-2.0-flash"
      +:+ "," +:+ q "supportedGenerationMethods" +:+ ":[" +:+ q "generateContent" +:+ "]"
      +:+ "},{" +:+ q "name" +:+ ":" +:+ q "models/embedding-001"
      +:+ "," +:+ q "supportedGenerationMethods" +:+ ":[" +:+ q "embedContent" +:+ "]}]}".

Definition mixed_json : JSON := JObj [("models", JArr mixed_models)].

(** Two entries without a capability list that cannot be named in a
    request: one has no name, the other nothing after the prefix. *)
Definition unnamed_models : list GeminiModel :=
  [JObj []; JObj [("name", JStr "models/")]].

Definition unnamed_raw : string :=
  "{" +:+ q "models" +:+ ":[{},{" +:+ q "name" +:+ ":" +:+ q "models/" +:+ "}]}".

(** The same two entries, each with an empty capability list. *)
Definition unnamed_empty_models : list GeminiModel :=
  [JObj [("supportedGenerationMethods", JArr [])];
   JObj [("name", JStr "models/"); ("supportedGenerationMethods", JArr [])]].

Definition unnamed_empty_raw : string :=
  "{" +:+ q "models" +:+ ":[{" +:+ q "supportedGenerationMethods" +:+ ":[]},{"
      +:+ q "name" +:+ ":" +:+ q "models/" +:+ ","
      +:+ q "supportedGenerationMethods" +:+ ":[]}]}".

(** A catalog of one model that declares another method only. *)
Definition embedding_models : list GeminiModel :=
  [JObj [("name", JStr "models/embedding-001");
         ("supportedGenerationMethods", JArr [JStr "embedContent"])]].

Definition embedding_raw : string :=
  "{" +:+ q "models" +:+ ":[{" +:+ q "name" +:+ ":" +:+ q "models/embedding-001"
      +:+ "," +:+ q "supportedGenerationMethods" +:+ ":[" +:+ q "embedContent" +:+ "]}]}".

Definition parse_catalogs : string -> string + JSON :=
  table_parse [(mixed_raw, mixed_json);
               (unnamed_raw, JObj [("models", JArr unnamed_models)]);
               (unnamed_empty_raw, JObj [("models", JArr unnamed_empty_models)]);
               (embedding_raw, JObj [("models", JArr embedding_models)]);
               (answer_raw, answer_json)].

(** [mixed_upstream] with the primary version listing [mixed_models]. *)
Definition mixed_listed : list (string * Outcome) :=
  (list_url V1beta, reply 200 mixed_raw) :: mixed_upstream.

(** Both versions list the same catalog; no model answers. *)
Definition listed_on_both (catalog : string) : list (string * Outcome) :=
  [(list_url V1beta, reply 200 catalog); (list_url V1, reply 200 catalog)].

(** The primary version lists the embedding model, which answers 404. *)
Definition embedding_listed : list (string * Outcome) :=
  [(list_url V1beta, reply 200 embedding_raw);
   (generate_url V1beta "embedding-001", reply 404 "")].

End Demo.

(** ** Further observations on traces *)

(** The time slept along a trace, in milliseconds. *)
Fixpoint total_sleep (tr : list Event) : Z :=
  match tr with
  | [] => 0
  | EvSleep ms :: tr' => ms + total_sleep tr'
  | _ :: tr' => total_sleep tr'
  end.

(** The requests the selection may send for a key and a prompt: the
    catalog of a version, or a generation by a model with a name. *)
Definition selection_request (JSON_stringify : JSON -> string) (apiKey prompt : string)
           (ev : Event) : Prop :=
  (exists v, ev = EvFetch (list_url v) (list_init apiKey) 15000) \/
  (exists v model,
      model <> "" /\
      ev = EvFetch (generate_url v model) (generate_init JSON_stringify apiKey prompt) 30000).

(** ** Text normalisation *)

Module JsText.

(** The rest of a text after the white space character it starts with,
    if it starts with one. *)
Definition strip_ws (s : string) : option string :=
  match s with
  | EmptyString => None
  | String c1 r1 =>
      if JsString.ws1 c1 then Some r1
      else match r1 with
           | EmptyString => None
           | String c2 r2 =>
               if JsString.ws2 c1 c2 then Some r2
               else match r2 with
                    | EmptyString => None
                    | String c3 r3 =>
                        if JsString.ws3 c1 c2 c3 then Some r3 else None
                    end
           end
  end.

(** [s.trimStart()] *)
Fixpoint trim_start (s : string) : string :=
  match s with
  | EmptyString => EmptyString
  | String c1 r1 =>
      if JsString.ws1 c1 then trim_start r1
      else match r1 with
           | EmptyString => s
           | String c2 r2 =>
               if JsString.ws2 c1 c2 then trim_start r2
               else match r2 with
                    | EmptyString => s
                    | String c3 r3 =>
                        if JsString.ws3 c1 c2 c3 then trim_start r3 else s
                    end
           end
  end.

(** [s.trimEnd()]: the text is cut where all that follows is white space. *)
Fixpoint trim_end (s : string) : string :=
  match s with
  | EmptyString => EmptyString
  | String c r =>
      if JsString.trim_is_empty s then EmptyString else String c (trim_end r)
  end.

(** [s.trim()] *)
Definition trim (s : string) : string := trim_end (trim_start s).

Definition space : ascii := ascii_of_nat 32.

(** [s.replace(/\s+/g, ' ')]: every maximal run of white space becomes
    one space; [in_run] tells that the run at hand has its space already. *)
Fixpoint collapse_spaces (in_run : bool) (s : string) : string :=
  match s with
  | EmptyString => EmptyString
  | String c1 r1 =>
      if JsString.ws1 c1 then
        if in_run then collapse_spaces true r1
        else String space (collapse_spaces true r1)
      else match r1 with
           | EmptyString => String c1 EmptyString
           | String c2 r2 =>
               if JsString.ws2 c1 c2 then
                 if in_run then collapse_spaces true r2
                 else String space (collapse_spaces true r2)
               else match r2 with
                    | EmptyString => String c1 (collapse_spaces false r1)
                    | String c3 r3 =>
                        if JsString.ws3 c1 c2 c3 then
                          if in_run then collapse_spaces true r3
                          else String space (collapse_spaces true r3)
                        else String c1 (collapse_spaces false r1)
                    end
           end
  end.

End JsText.

Definition normalizeText (s : string) : string :=
  JsText.trim (JsText.collapse_spaces false s).

(** ** The HTTP handler *)

(** What the handler reads of a request: [req.method] and the parsed
    [req.body], either of which may be [undefined]. *)
Record VercelRequest : Type := {
  req_method : option string;
  req_body : option JSON
}.

(** [res.status(code).json(payload)] *)
Record VercelResponse : Type := {
  res_status : Z;
  res_json : JSON
}.

(** An argument of [console.log] or [console.error]. *)
Inductive LogArg : Type :=
| LogStr (s : string)
| LogBool (b : bool)
| LogNum (n : Z)
| LogPicked (version : GeminiApiVersion) (model : string).

(** What the handler does besides answering: its own log lines, and the
    effects of the selection it runs. *)
Inductive HandlerEvent : Type :=
| HLog (args : list LogArg)
| HError (args : list LogArg)
| HCore (ev : Event).

Record Handled (W : Type) : Type := MkHandled {
  response : VercelResponse;
  after : W;
  events : list HandlerEvent
}.
Arguments MkHandled {W} response after events.
Arguments response {W} h.
Arguments after {W} h.
Arguments events {W} h.

Definition json_error (msg : string) : JSON := JObj [("error", JStr msg)].

Definition nl : string := String (ascii_of_nat 10) EmptyString.

(** The prompt of the source, around the article and the question. *)
Definition build_prompt (article q : string) : string :=
  "あなたは、与えられた「記事本文」を深く理解し、自身の持つ広範な専門知識と組み合わせて洞察を提供する、優秀な専門アナリストです。" +:+ nl +:+ nl +:+
  "ユーザーからの「質問」に対して、以下の指示に従って回答を生成してください。" +:+ nl +:+ nl +:+
  "1. まず「記事本文」に書かれている情報を最優先の根拠（一次情報）とする。" +:+ nl +:+
  "2. その上で、あなたの専門知識を補足情報として活用し、多角的に回答する。" +:+ nl +:+
  "3. 記事に直接書かれていない推論/予測は、あなた自身の考察であることを明示する。" +:+ nl +:+
  "4. 回答は必ずMarkdownで、見出し/太字/箇条書きを使って構造化する。" +:+ nl +:+ nl +:+
  "---記事本文---" +:+ nl +:+ article +:+ nl +:+ nl +:+
  "---質問---" +:+ nl +:+ q +:+ nl +:+ nl +:+
  "---回答---" +:+ nl.

(** [typeof v === 'string' && v.trim() !== ''], with the string. *)
Definition nonblank_string (v : option JSON) : option string :=
  match Js.as_string v with
  | Some s => if JsString.trim_is_empty s then None else Some s
  | None => None
  end.

(** [req.method === 'POST'] *)
Definition is_post (m : option string) : bool :=
  match m with
  | Some s => String.eqb s "POST"
  | None => false
  end.

(** A truthy environment variable, with its value. *)
Definition truthy_key (k : option string) : option string :=
  match k with
  | Some s => if JsString.truthy s then Some s else None
  | None => None
  end.

Section Handler.

Context {World : Type}.
Variable JSON_parse : string -> string + JSON.
Variable JSON_stringify : JSON -> string.
Variable fetch : string -> RequestInit -> Z -> World -> Outcome * World.

(** The platform's view of a string as UTF-16 code units: [s.length]
    and [s.slice(0, n)]. *)
Variable js_length : string -> Z.
Variable js_slice0 : Z -> string -> string.

Definition banner : HandlerEvent :=
  HLog [LogStr "=== [VER 3.0] answer-question (Gemini auto-pick v1beta/v1 + retry) ==="].

Definition debug_lines (articleText question : option JSON) (key : option string)
  : list HandlerEvent :=
  [HLog [LogStr "[DEBUG] GEMINI_API_KEY set:"; LogBool (bool_decide (is_Some (truthy_key key)))];
   HLog [LogStr "[DEBUG] articleText length:";
         LogNum (match Js.as_string articleText with Some s => js_length s | None => 0 end)];
   HLog [LogStr "[DEBUG] question provided:";
         LogBool (bool_decide (is_Some (nonblank_string question)))]].

Definition handler (req : VercelRequest) (GEMINI_API_KEY : option string) (w : World)
  : Handled World :=
  if is_post (req_method req) then
      let articleText := Js.prop (req_body req) "articleText" in
      let question := Js.prop (req_body req) "question" in
      let logged := banner :: debug_lines articleText question GEMINI_API_KEY in
      match nonblank_string articleText, nonblank_string question with
      | Some a, Some qn =>
          match truthy_key GEMINI_API_KEY with
          | None =>
              MkHandled
                {| res_status := 500;
                   res_json := json_error "Gemini APIキーがサーバーに設定されていません。" |}
                w logged
          | Some geminiApiKey =>
              let article := js_slice0 8000 (normalizeText a) in
              let q := js_slice0 1000 (normalizeText qn) in
              let prompt := build_prompt article q in
              let r := generateWithAutoPick JSON_parse JSON_stringify fetch
                                            geminiApiKey prompt w in
              match result r with
              | Ok generated =>
                  MkHandled
                    {| res_status := 200;
                       res_json := JObj [("answer", JStr (JsText.trim (sel_text generated)))] |}
                    (final r)
                    (logged ++ (HCore <$> trace r) ++
                     [HLog [LogStr "[DEBUG] Gemini picked:";
                            LogPicked (sel_version generated) (sel_model generated)]])
              | Throw error =>
                  MkHandled
                    {| res_status := 500; res_json := json_error (message error) |}
                    (final r)
                    (logged ++ (HCore <$> trace r) ++
                     [HError [LogStr "An error occurred in answer-question handler:";
                              LogStr (message error)]])
              end
          end
      | _, _ =>
          MkHandled
            {| res_status := 400;
               res_json := json_error "記事本文と質問の両方が必要です。" |}
            w logged
      end
  else
      MkHandled {| res_status := 405; res_json := json_error "POST method required." |}
                w [banner].

End Handler.

(** Two texts agree on their first [k] bytes, except that the second
    may end early or have a space where the first has something else. *)
Fixpoint agree (k : nat) (r r' : string) : Prop :=
  match k with
  | O => True
  | S k' =>
      r' = EmptyString \/
      (exists t, r' = String JsText.space t) \/
      (exists c t t', r = String c t /\ r' = String c t' /\ agree k' t t')
  end.

(** ** Fixtures for the handler *)

Module Fixture.

(** [s.length] and [s.slice(0, n)] on texts of one-byte characters. *)
Definition ascii_length (s : string) : Z := Z.of_nat (String.length s).

Definition ascii_slice0 (n : Z) (s : string) : string :=
  String.substring 0 (Z.to_nat n) s.

Definition ask (method : string) (body : option JSON) : VercelRequest :=
  {| req_method := Some method; req_body := body |}.

Definition question_body : JSON :=
  JObj [("articleText", JStr "  Rust 1.80   was released today. ");
        ("question", JStr "What was released?")].

(** The handler over the stateless upstream of [Demo.upstream]. *)
Definition handle (first : Outcome) (req : VercelRequest) (key : option string)
  : Handled unit :=
  handler Demo.parse Demo.stringify (Demo.table_fetch (Demo.upstream first))
          ascii_length ascii_slice0 req key tt.

End Fixture.

(** The catalog listings among the requests of a trace, by version. *)
Definition listed_version (ev : Event) : option GeminiApiVersion :=
  match ev with
  | EvFetch url _ _ =>
      if String.eqb url (list_url V1beta) then Some V1beta
      else if String.eqb url (list_url V1) then Some V1
      else None
  | _ => None
  end.

Definition listings (tr : list Event) : list GeminiApiVersion :=
  omap listed_version tr.

(** ** Facts about strings *)

Lemma prefix_app (m b : string) : String.prefix m (m +:+ b) = true.
Proof.
  induction m as [|c m IH]; simpl; [now destruct b|].
  destruct (ascii_dec c c); [exact IH | congruence].
Qed.

Lemma includes_here (m s : string) :
  String.prefix m s = true -> JsString.includes m s = true.
Proof. intros H. destruct s; cbn [JsString.includes]; rewrite H; reflexivity. Qed.

Lemma includes_later (m : string) (c : ascii) (s : string) :
  JsString.includes m s = true -> JsString.includes m (String c s) = true.
Proof. intros H. cbn [JsString.includes]. rewrite H. apply orb_true_r. Qed.

(** A text that has [m] somewhere in it includes [m]. *)
Lemma includes_app (a m b : string) : JsString.includes m (a +:+ m +:+ b) = true.
Proof.
  induction a as [|c a IH].
  - change ("" +:+ m +:+ b) with (m +:+ b). apply includes_here, prefix_app.
  - change (String c a +:+ m +:+ b) with (String c (a +:+ m +:+ b)).
    apply includes_later, IH.
Qed.

Lemma string_app_cons (x : ascii) (a b : string) : String x a +:+ b = String x (a +:+ b).
Proof. reflexivity. Qed.

Lemma string_app_nil (b : string) : "" +:+ b = b.
Proof. reflexivity. Qed.

Lemma string_app_assoc (a b c : string) : (a +:+ b) +:+ c = a +:+ b +:+ c.
Proof.
  induction a as [|x a IH]; [reflexivity|].
  rewrite !string_app_cons. now rewrite IH.
Qed.

Lemma string_app_length (a b : string) :
  String.length (a +:+ b) = (String.length a + String.length b)%nat.
Proof.
  induction a as [|x a IH]; [reflexivity|].
  rewrite string_app_cons. simpl. now rewrite IH.
Qed.

Lemma string_app_inv_tail (a b s : string) : a +:+ s = b +:+ s -> a = b.
Proof.
  revert b. induction a as [|x a IH]; intros [|y b] H.
  - reflexivity.
  - apply (f_equal String.length) in H.
    rewrite string_app_nil, string_app_cons in H. simpl in H.
    rewrite string_app_length in H. lia.
  - apply (f_equal String.length) in H.
    rewrite string_app_nil, string_app_cons in H. simpl in H.
    rewrite string_app_length in H. lia.
  - rewrite !string_app_cons in H. injection H as -> H. f_equal. now apply IH.
Qed.

(** ** The pure helpers on small inputs *)

Example shortModelName_strips_prefix :
  shortModelName "models/gemini-2.0-flash" = "gemini-2.0-flash".
Proof. reflexivity. Qed.

Example shortModelName_only_leading :
  shortModelName "tuned/models/x" = "tuned/models/x" /\ shortModelName "models/" = "".
Proof. split; reflexivity. Qed.

Example trim_is_empty_samples :
  JsString.trim_is_empty "" = true /\
  JsString.trim_is_empty (String (ascii_of_nat 9) (String (ascii_of_nat 10) " ")) = true /\
  JsString.trim_is_empty " a " = false.
Proof. repeat split; reflexivity. Qed.

Example retryable_statuses :
  List.filter isRetryableStatus [200; 400; 401; 403; 404; 429; 500; 501; 502; 503; 504]
  = [429; 500; 502; 503; 504].
Proof. reflexivity. Qed.

Example mismatch_markers :
  isGeminiNotFoundOrUnsupported "x failed (v1/m): 404 {}" = true /\
  isGeminiNotFoundOrUnsupported ("{" +:+ JsString.dquote +:+ "code" +:+ JsString.dquote
                                  +:+ ": 404}") = true /\
  isGeminiNotFoundOrUnsupported "status NOT_FOUND" = true /\
  isGeminiNotFoundOrUnsupported "method is not supported" = true /\
  isGeminiNotFoundOrUnsupported "x failed (v1/m): 403 denied" = false.
Proof. repeat split; reflexivity. Qed.

Example capability_samples :
  modelSupportsGenerateContent (JObj [("name", JStr "models/a")]) = true /\
  modelSupportsGenerateContent
    (JObj [("name", JStr "models/a"); ("supportedGenerationMethods", JArr [])]) = true /\
  modelSupportsGenerateContent
    (JObj [("name", JStr "models/a");
           ("supportedGenerationMethods", JArr [JStr "embedContent"])]) = false /\
  modelSupportsGenerateContent
    (JObj [("name", JStr "models/a");
           ("supportedGenerationMethods",
            JArr [JStr "countTokens"; JStr "generateContent"])]) = true.
Proof. repeat split; reflexivity. Qed.

Example candidates_sample :
  candidates_of ["x"; "gemini-2.0-flash-lite"; "x"; "gemini-2.5-flash"; "y"]
  = ["gemini-2.5-flash"; "gemini-2.0-flash-lite"; "x"; "y"].
Proof. reflexivity. Qed.

(** ** Facts about the computation monad *)

Lemma run_eta {W A} (r : Run W A) : MkRun (result r) (final r) (trace r) = r.
Proof. now destruct r. Qed.

Lemma bind_run {W A B} (m : M W A) (k : A -> M W B) (w : W) :
  (m ≫= k) w =
  match result (m w) with
  | Ok a => MkRun (result (k a (final (m w)))) (final (k a (final (m w))))
                  (trace (m w) ++ trace (k a (final (m w))))
  | Throw e => MkRun (Throw e) (final (m w)) (trace (m w))
  end.
Proof. reflexivity. Qed.

Lemma bind_ok {W A B} (m : M W A) (k : A -> M W B) (w : W) (a : A) :
  result (m w) = Ok a ->
  (m ≫= k) w = MkRun (result (k a (final (m w)))) (final (k a (final (m w))))
                      (trace (m w) ++ trace (k a (final (m w)))).
Proof. intros H. rewrite bind_run, H. reflexivity. Qed.

Lemma bind_throw {W A B} (m : M W A) (k : A -> M W B) (w : W) (e : JsError) :
  result (m w) = Throw e ->
  (m ≫= k) w = MkRun (Throw e) (final (m w)) (trace (m w)).
Proof. intros H. rewrite bind_run, H. reflexivity. Qed.

Lemma try_catch_ok {W A} (m : M W A) (h : JsError -> M W A) (w : W) (a : A) :
  result (m w) = Ok a -> try_catch m h w = m w.
Proof. intros H. unfold try_catch. now rewrite H. Qed.

Lemma try_catch_throw {W A} (m : M W A) (h : JsError -> M W A) (w : W) (e : JsError) :
  result (m w) = Throw e ->
  try_catch m h w = MkRun (result (h e (final (m w)))) (final (h e (final (m w))))
                          (trace (m w) ++ trace (h e (final (m w)))).
Proof. intros H. unfold try_catch. now rewrite H. Qed.

(** ** Facts about statuses *)

Lemma retryable_not_ok (st : Z) : isRetryableStatus st = true -> status_ok st = false.
Proof. unfold isRetryableStatus, status_ok. lia. Qed.

Lemma status_200_ok : status_ok 200 = true.
Proof. reflexivity. Qed.

(** ** Facts about traces *)

Lemma attempts_app (tr1 tr2 : list Event) :
  attempts (tr1 ++ tr2) = attempts tr1 ++ attempts tr2.
Proof. unfold attempts. apply List.filter_app. Qed.

(** ** The retrier *)

Section Retrier.

Context {World : Type}.
Variable fetch : string -> RequestInit -> Z -> World -> Outcome * World.
Variables (url : string) (init : RequestInit) (timeoutMs : Z) (retries : nat).

Local Abbreviation request := (EvFetch url init timeoutMs).

Lemma fetchWithTimeout_run (w : World) :
  fetchWithTimeout fetch url init timeoutMs w =
  MkRun (outcome_result (fetch url init timeoutMs w).1)
        (fetch url init timeoutMs w).2 [request].
Proof.
  unfold fetchWithTimeout. destruct (fetch url init timeoutMs w) as [o w'].
  now destruct o.
Qed.

(** The three ways one iteration of the retry loop can go. *)
Lemma retry_body_run (i : nat) (lastErr : option JsError) (w : World) :
  retry_body fetch url init timeoutMs retries i lastErr w =
  let w' := (fetch url init timeoutMs w).2 in
  match (fetch url init timeoutMs w).1 with
  | Responded resp =>
      if status_ok (status resp) then MkRun (Ok (Return resp)) w' [request]
      else if isRetryableStatus (status resp) && (i <? retries)%nat then
        MkRun (Ok (Continue lastErr)) w'
              [request; EvWarn (warn_retryable (status resp) (backoff i));
               EvSleep (backoff i)]
      else MkRun (Ok (Return resp)) w' [request]
  | Failed e =>
      if (i <? retries)%nat then
        MkRun (Ok (Continue (Some e))) w'
              [request; EvWarn (warn_network (backoff i) e); EvSleep (backoff i)]
      else MkRun (Throw e) w' [request]
  end.
Proof.
  unfold retry_body, try_catch. rewrite bind_run, fetchWithTimeout_run.
  destruct (fetch url init timeoutMs w) as [[resp|e] w'];
    cbn [fst snd outcome_result result final trace].
  - destruct (status_ok (status resp)); [reflexivity|].
    destruct (isRetryableStatus (status resp) && (i <? retries)%nat); reflexivity.
  - destruct (i <? retries)%nat; reflexivity.
Qed.

Lemma retry_loop_S (remaining i : nat) (lastErr : option JsError) (w : World) :
  retry_loop fetch url init timeoutMs retries (S remaining) i lastErr w =
  (retry_body fetch url init timeoutMs retries i lastErr ≫=
     fun step =>
       match step with
       | Return resp => mret resp
       | Continue lastErr' =>
           retry_loop fetch url init timeoutMs retries remaining (S i) lastErr'
       end) w.
Proof. reflexivity. Qed.

Lemma outcomes_length (n : nat) (w : World) :
  length (outcomes fetch url init timeoutMs n w) = n.
Proof.
  revert w. induction n as [|n IH]; intros w; simpl; [reflexivity|].
  destruct (fetch url init timeoutMs w) as [o w']. simpl. now rewrite IH.
Qed.

Lemma outcomes_S (n : nat) (w : World) :
  outcomes fetch url init timeoutMs (S n) w =
  (fetch url init timeoutMs w).1 ::
  outcomes fetch url init timeoutMs n (fetch url init timeoutMs w).2.
Proof. simpl. now destruct (fetch url init timeoutMs w). Qed.

(** The loop entered at index [i]: after [k] retryable outcomes it ends
    with the next one, when that one is terminal or the budget is spent. *)
Lemma retry_loop_run (k : nat) :
  forall (remaining i : nat) (lastErr : option JsError) (w : World)
         (os : list Outcome) (o : Outcome) (pending : list Z),
    outcomes fetch url init timeoutMs (S k) w = os ++ [o] ->
    Forall (fun o' => retryable o' = true) os ->
    (i + k <= retries)%nat ->
    (k < remaining)%nat ->
    retryable o = false \/ (i + k = retries)%nat ->
    let r := retry_loop fetch url init timeoutMs retries remaining i lastErr w in
    result r = outcome_result o /\
    waits_before_attempts pending (trace r) =
      pending :: ((fun j : nat => [backoff (i + j)]) <$> seq 0 k) /\
    attempts (trace r) = replicate (S k) request.
Proof.
  induction k as [|k IH]; intros remaining i lastErr w os o pending Hos Hre Hle Hrem Hend.
  - destruct remaining as [|remaining]; [lia|].
    rewrite outcomes_S in Hos. simpl in Hos.
    destruct os as [|o' os]; [|destruct os; discriminate].
    injection Hos as Ho. cbn zeta.
    rewrite retry_loop_S, bind_run, retry_body_run. cbn zeta. rewrite Ho.
    destruct o as [resp|e]; cbn [retryable outcome_result] in *.
    + destruct (status_ok (status resp)) eqn:Hok; [now cbn|].
      replace (isRetryableStatus (status resp) && (i <? retries)%nat) with false.
      * now cbn.
      * destruct Hend as [->|Hend]; [reflexivity|].
        replace (i <? retries)%nat with false by (symmetry; apply Nat.ltb_ge; lia).
        now rewrite andb_false_r.
    + destruct Hend as [Hend|Hend]; [discriminate|].
      replace (i <? retries)%nat with false by (symmetry; apply Nat.ltb_ge; lia).
      now cbn.
  - destruct remaining as [|remaining]; [lia|].
    rewrite outcomes_S in Hos.
    destruct os as [|o' os].
    { apply (f_equal length) in Hos.
      rewrite length_cons, outcomes_length in Hos. simpl in Hos. lia. }
    change ((o' :: os) ++ [o]) with (o' :: (os ++ [o])) in Hos.
    injection Hos as Ho' Hos.
    apply Forall_cons in Hre as [Ho'r Hre].
    assert (Hlt : (i <? retries)%nat = true) by (apply Nat.ltb_lt; lia).
    specialize (IH remaining (S i)).
    cbn zeta.
    rewrite retry_loop_S, bind_run, retry_body_run. cbn zeta. rewrite Ho'.
    destruct o' as [resp|e]; cbn [retryable] in Ho'r.
    + rewrite (retryable_not_ok _ Ho'r), Ho'r, Hlt. cbn.
      destruct (IH lastErr (fetch url init timeoutMs w).2 os o [backoff i])
        as (Hres & Hwaits & Hatt); try assumption; try lia.
      { destruct Hend; [now left | right; lia]. }
      split; [exact Hres|]. split.
      * rewrite Hwaits. cbn [seq fmap list_fmap]. rewrite Nat.add_0_r. do 2 f_equal.
        rewrite <- fmap_S_seq, <- list_fmap_compose.
        apply list_fmap_ext. intros _ j _. cbn. do 2 f_equal. lia.
      * unfold attempts in *. now rewrite Hatt.
    + rewrite Hlt. cbn.
      destruct (IH (Some e) (fetch url init timeoutMs w).2 os o [backoff i])
        as (Hres & Hwaits & Hatt); try assumption; try lia.
      { destruct Hend; [now left | right; lia]. }
      split; [exact Hres|]. split.
      * rewrite Hwaits. cbn [seq fmap list_fmap]. rewrite Nat.add_0_r. do 2 f_equal.
        rewrite <- fmap_S_seq, <- list_fmap_compose.
        apply list_fmap_ext. intros _ j _. cbn. do 2 f_equal. lia.
      * unfold attempts in *. now rewrite Hatt.
Qed.

(** Without any assumption on the upstream: the loop makes one attempt,
    and one more for each retryable outcome while the budget lasts. *)
Lemma retry_loop_attempts (n : nat) :
  forall (i : nat) (lastErr : option JsError) (w : World),
    (i + n = retries)%nat ->
    attempts (trace (retry_loop fetch url init timeoutMs retries (S n) i lastErr w)) =
    replicate (S (leading_retryable (outcomes fetch url init timeoutMs n w))) request.
Proof.
  induction n as [|n IH]; intros i lastErr w Hi;
    rewrite retry_loop_S, bind_run, retry_body_run; cbn zeta.
  - replace (i <? retries)%nat with false by (symmetry; apply Nat.ltb_ge; lia).
    destruct (fetch url init timeoutMs w).1 as [resp|e]; [|reflexivity].
    rewrite andb_false_r. now destruct (status_ok (status resp)).
  - replace (i <? retries)%nat with true by (symmetry; apply Nat.ltb_lt; lia).
    rewrite outcomes_S. cbn [leading_retryable].
    destruct (fetch url init timeoutMs w).1 as [resp|e]; cbn [retryable].
    + rewrite andb_true_r. destruct (isRetryableStatus (status resp)) eqn:Hr.
      * rewrite (retryable_not_ok _ Hr). cbn -[retry_loop].
        unfold attempts in IH. rewrite IH by lia. reflexivity.
      * now destruct (status_ok (status resp)).
    + cbn -[retry_loop]. unfold attempts in IH. rewrite IH by lia. reflexivity.
Qed.

Lemma leading_retryable_le (os : list Outcome) :
  (leading_retryable os <= length os)%nat.
Proof.
  induction os as [|o os IH]; simpl; [lia|]. destruct (retryable o); lia.
Qed.

End Retrier.

(** C3. When the first [k <= retries] outcomes of a request are
    retryable (status 429, 500, 502, 503 or 504, or a thrown transport
    error) and the next one is not, or the budget is spent ([k = retries]),
    [postJsonWithRetry] ends with that outcome as it is (the response
    returned, the error rethrown); attempt 0 is made at once and the only
    wait before attempt [i >= 1] is [800 * 2^(i-1)]. *)
Theorem retrier_returns_first_terminal_outcome
        {World : Type} (fetch : string -> RequestInit -> Z -> World -> Outcome * World)
        (url : string) (init : RequestInit) (timeoutMs : Z) (retries k : nat)
        (w : World) (os : list Outcome) (o : Outcome) :
  outcomes fetch url init timeoutMs (S k) w = os ++ [o] ->
  Forall (fun o' => retryable o' = true) os ->
  (k <= retries)%nat ->
  retryable o = false \/ k = retries ->
  let r := postJsonWithRetry fetch url init timeoutMs retries w in
  result r = outcome_result o /\
  waits_before_attempts [] (trace r) =
    [] :: ((fun i : nat => [800 * 2 ^ (Z.of_nat i - 1)]) <$> seq 1 k) /\
  length (attempts (trace r)) = S k.
Proof.
  intros Hos Hre Hle Hend r.
  destruct (retry_loop_run fetch url init timeoutMs retries k (S retries) 0 None
                           w os o [] Hos Hre) as (Hres & Hwaits & Hatt);
    [lia | lia | destruct Hend; [now left | now right] |].
  split; [exact Hres|]. split.
  - subst r. unfold postJsonWithRetry. rewrite Hwaits. f_equal.
    rewrite <- fmap_S_seq, <- list_fmap_compose.
    apply list_fmap_ext. intros _ j _. cbn [compose]. unfold backoff.
    do 3 f_equal. lia.
  - subst r. unfold postJsonWithRetry. rewrite Hatt. apply length_replicate.
Qed.

(** Three retryable outcomes (503, a network error, 429) and then a 500
    with the budget spent: the 500 is returned after waits of 800, 1600
    and 3200. *)
Lemma retrier_returns_first_terminal_outcome_witness :
  let script := [Demo.reply 503 ""; Failed (Error "socket hang up");
                 Demo.reply 429 ""; Demo.reply 500 "boom"; Demo.reply 200 "late"] in
  let r := postJsonWithRetry Demo.scripted_fetch "u" (list_init "k") 30000 3 script in
  result r = Ok {| status := 500; raw := "boom" |} /\
  waits_before_attempts [] (trace r) = [[]; [800]; [1600]; [3200]] /\
  length (attempts (trace r)) = 4%nat.
Proof.
  intros script r.
  apply (retrier_returns_first_terminal_outcome Demo.scripted_fetch "u" (list_init "k")
           30000 3 3 script
           [Demo.reply 503 ""; Failed (Error "socket hang up"); Demo.reply 429 ""]
           (Demo.reply 500 "boom")).
  - reflexivity.
  - repeat constructor.
  - lia.
  - now right.
Defined.

(** ** The selector, step by step *)

Section Selector.

Context {World : Type}.
Variable JSON_parse : string -> string + JSON.
Variable JSON_stringify : JSON -> string.
Variable fetch : string -> RequestInit -> Z -> World -> Outcome * World.

Local Abbreviation listing v key := (EvFetch (list_url v) (list_init key) 15000).
Local Abbreviation generation v model key prompt :=
  (EvFetch (generate_url v model) (generate_init JSON_stringify key prompt) 30000).
Local Abbreviation post v model key prompt :=
  (postJsonWithRetry fetch (generate_url v model)
                     (generate_init JSON_stringify key prompt) 30000 3).

Lemma listModels_run (version : GeminiApiVersion) (apiKey : string) (w : World) :
  listModels JSON_parse fetch version apiKey w =
  MkRun (listing_result JSON_parse version (fetch (list_url version) (list_init apiKey) 15000 w).1)
        (fetch (list_url version) (list_init apiKey) 15000 w).2
        [listing version apiKey].
Proof.
  unfold listModels. rewrite bind_run, fetchWithTimeout_run.
  destruct (fetch (list_url version) (list_init apiKey) 15000 w) as [[resp|e] w'];
    cbn [fst snd outcome_result result final trace listing_result]; [|reflexivity].
  destruct (status_ok (status resp)); cbn [negb]; [|reflexivity].
  now destruct (JSON_parse (raw resp)).
Qed.

Lemma generateContent_run (version : GeminiApiVersion) (model apiKey prompt : string)
      (w : World) :
  generateContent JSON_parse JSON_stringify fetch version model apiKey prompt w =
  MkRun (generation_result JSON_parse version model (result (post version model apiKey prompt w)))
        (final (post version model apiKey prompt w))
        (trace (post version model apiKey prompt w)).
Proof.
  unfold generateContent. rewrite bind_run.
  destruct (post version model apiKey prompt w) as [[resp|e] w' tr];
    cbn [result final trace generation_result]; [|reflexivity].
  destruct (status_ok (status resp)); cbn [negb].
  - destruct (JSON_parse (raw resp)) as [err|data]; cbn; rewrite ?app_nil_r; [reflexivity|].
    destruct (Js.as_string (generated_text data)) as [text|]; cbn; rewrite ?app_nil_r;
      [|reflexivity].
    destruct (JsString.trim_is_empty text); cbn; now rewrite ?app_nil_r.
  - cbn. now rewrite app_nil_r.
Qed.

(** The first event of every generation is its HTTP request. *)
Lemma post_trace_head (version : GeminiApiVersion) (model apiKey prompt : string)
      (w : World) :
  exists rest, trace (post version model apiKey prompt w) =
               generation version model apiKey prompt :: rest.
Proof.
  unfold postJsonWithRetry. rewrite retry_loop_S, bind_run, retry_body_run. cbn zeta.
  destruct (fetch _ _ _ w).1 as [resp|e].
  - destruct (status_ok (status resp)); [eexists; reflexivity|].
    destruct (isRetryableStatus (status resp) && (0 <? 3)%nat); eexists; reflexivity.
  - cbn. eexists; reflexivity.
Qed.

Lemma candidate_body_run (version : GeminiApiVersion) (apiKey prompt : string)
      (generateCapable : gset string) (model : string) (w : World) :
  candidate_body JSON_parse JSON_stringify fetch version apiKey prompt
                 generateCapable model w =
  if skipped generateCapable model then MkRun (Ok (Continue tt)) w []
  else
    let g := generateContent JSON_parse JSON_stringify fetch version model apiKey prompt w in
    match result g with
    | Ok text =>
        MkRun (Ok (Return {| sel_version := version; sel_model := model; sel_text := text |}))
              (final g) (trace g)
    | Throw e =>
        MkRun (if isGeminiNotFoundOrUnsupported (message e)
               then Ok (Continue tt) else Throw e)
              (final g) (trace g ++ [EvWarn (warn_generate_failed (message e))])
    end.
Proof.
  unfold candidate_body. destruct (skipped generateCapable model); [reflexivity|].
  cbn zeta. unfold try_catch. rewrite bind_run.
  destruct (generateContent _ _ _ version model apiKey prompt w) as [[text|e] w' tr];
    cbn [result final trace].
  - cbn. now rewrite app_nil_r.
  - cbn [result final trace]. rewrite bind_run. cbn [warn emit result final trace].
    destruct (isGeminiNotFoundOrUnsupported (message e)); cbn; now rewrite ?app_nil_r.
Qed.

Lemma candidate_loop_cons (version : GeminiApiVersion) (apiKey prompt : string)
      (generateCapable : gset string) (model : string) (rest : list string) (w : World) :
  candidate_loop JSON_parse JSON_stringify fetch version apiKey prompt generateCapable
                 (model :: rest) w =
  (candidate_body JSON_parse JSON_stringify fetch version apiKey prompt generateCapable model
     ≫= fun step =>
          match step with
          | Return sel => mret (Some sel)
          | Continue _ =>
              candidate_loop JSON_parse JSON_stringify fetch version apiKey prompt
                             generateCapable rest
          end) w.
Proof. reflexivity. Qed.

Lemma generateContent_trace_head (version : GeminiApiVersion)
      (model apiKey prompt : string) (w : World) :
  exists rest,
    trace (generateContent JSON_parse JSON_stringify fetch version model apiKey prompt w) =
    generation version model apiKey prompt :: rest.
Proof. rewrite generateContent_run. apply post_trace_head. Qed.

(** A failed attempt on a candidate the filter lets through: the loop
    goes on or stops according to the message alone. *)
Lemma candidate_loop_failed_attempt (version : GeminiApiVersion) (apiKey prompt : string)
      (generateCapable : gset string) (model : string) (rest : list string)
      (w : World) (e : JsError) :
  let g := generateContent JSON_parse JSON_stringify fetch version model apiKey prompt w in
  let loop := candidate_loop JSON_parse JSON_stringify fetch version apiKey prompt
                             generateCapable in
  let failed := trace g ++ [EvWarn (warn_generate_failed (message e))] in
  skipped generateCapable model = false ->
  result g = Throw e ->
  loop (model :: rest) w =
  if isGeminiNotFoundOrUnsupported (message e)
  then MkRun (result (loop rest (final g))) (final (loop rest (final g)))
             (failed ++ trace (loop rest (final g)))
  else MkRun (Throw e) (final g) failed.
Proof.
  intros g loop failed Hskip Hg. subst loop.
  rewrite candidate_loop_cons, bind_run, candidate_body_run, Hskip. cbn zeta.
  fold g. rewrite Hg.
  destruct (isGeminiNotFoundOrUnsupported (message e)); reflexivity.
Qed.

(** The text handed back by a successful generation is never blank. *)
Lemma generateContent_text_not_blank (version : GeminiApiVersion)
      (model apiKey prompt : string) (w : World) (text : string) :
  result (generateContent JSON_parse JSON_stringify fetch version model apiKey prompt w)
  = Ok text ->
  JsString.trim_is_empty text = false.
Proof.
  rewrite generateContent_run. cbn [result].
  destruct (result (post version model apiKey prompt w)) as [resp|e]; [|discriminate].
  cbn [generation_result].
  destruct (status_ok (status resp)); [|discriminate].
  destruct (JSON_parse (raw resp)) as [err|data]; [discriminate|].
  destruct (Js.as_string (generated_text data)) as [t|]; [|discriminate].
  destruct (JsString.trim_is_empty t) eqn:Ht; [discriminate|].
  intros [= <-]. exact Ht.
Qed.

(** Every generate-content response of status 404 yields a message with
    the [: 404] marker. *)
Lemma status_404_is_a_mismatch (version : GeminiApiVersion) (model : string)
      (resp : Response) :
  status resp = 404 ->
  isGeminiNotFoundOrUnsupported (generate_failed_msg version model resp) = true.
Proof.
  intros Hst. unfold isGeminiNotFoundOrUnsupported, generate_failed_msg.
  rewrite Hst.
  replace (JsString.includes ": 404" _) with true; [reflexivity|].
  symmetry.
  change ("): " +:+ pretty 404 +:+ " " +:+ raw resp)
    with (")" +:+ ": 404" +:+ " " +:+ raw resp).
  rewrite <- !(string_app_assoc _ _ (": 404" +:+ " " +:+ raw resp)).
  apply includes_app.
Qed.

(** *** The version loop *)

Lemma version_body_run (apiKey prompt : string) (version : GeminiApiVersion) (w : World) :
  version_body JSON_parse JSON_stringify fetch apiKey prompt version w =
  let l := listModels JSON_parse fetch version apiKey w in
  match result l with
  | Throw e =>
      MkRun (Ok None) (final l) (trace l ++ [EvWarn (warn_list_failed version e)])
  | Ok models =>
      let r := candidate_loop JSON_parse JSON_stringify fetch version apiKey prompt
                              (generateCapable_of models)
                              (candidates_of (available_of models)) (final l) in
      MkRun (result r) (final r) (trace l ++ trace r)
  end.
Proof.
  unfold version_body. rewrite bind_run. unfold try_catch. rewrite bind_run.
  destruct (listModels JSON_parse fetch version apiKey w) as [[models|e] w' tr];
    cbn [result final trace].
  - cbn. now rewrite app_nil_r.
  - rewrite bind_run. cbn. now rewrite app_nil_r.
Qed.

Lemma version_loop_cons (apiKey prompt : string) (version : GeminiApiVersion)
      (rest : list GeminiApiVersion) (w : World) :
  version_loop JSON_parse JSON_stringify fetch apiKey prompt (version :: rest) w =
  (version_body JSON_parse JSON_stringify fetch apiKey prompt version ≫=
     fun found =>
       match found with
       | Some sel => mret (Some sel)
       | None => version_loop JSON_parse JSON_stringify fetch apiKey prompt rest
       end) w.
Proof. reflexivity. Qed.

(** Each version starts with its listing request. *)
Lemma version_loop_trace_head (apiKey prompt : string)
      (versions : list GeminiApiVersion) (w : World) :
  head (trace (version_loop JSON_parse JSON_stringify fetch apiKey prompt versions w)) =
  head ((fun v => listing v apiKey) <$> versions).
Proof.
  destruct versions as [|v vs]; [reflexivity|].
  rewrite version_loop_cons, bind_run, version_body_run. cbn zeta.
  rewrite listModels_run. cbn [result final trace].
  destruct (listing_result JSON_parse v _) as [models|e]; cbn [result final trace].
  - destruct (result (candidate_loop _ _ _ _ _ _ _ _ _)) as [[sel|]|e]; reflexivity.
  - reflexivity.
Qed.

(** A listing that throws: the version is given up with a warning and
    the loop goes on with the versions left. *)
Lemma version_loop_listing_throws (apiKey prompt : string) (version : GeminiApiVersion)
      (rest : list GeminiApiVersion) (w : World) (e : JsError) :
  let l := listModels JSON_parse fetch version apiKey w in
  let r := version_loop JSON_parse JSON_stringify fetch apiKey prompt rest (final l) in
  result l = Throw e ->
  version_loop JSON_parse JSON_stringify fetch apiKey prompt (version :: rest) w =
  MkRun (result r) (final r)
        ([listing version apiKey; EvWarn (warn_list_failed version e)] ++ trace r).
Proof.
  intros l r Hl. rewrite version_loop_cons, bind_run, version_body_run. cbn zeta.
  fold l. rewrite Hl. cbn [result final trace]. subst l r.
  rewrite listModels_run. reflexivity.
Qed.

(** An error thrown by the candidate loop leaves the version loop and
    the whole selection as it is: no later candidate or version is tried. *)
Lemma candidate_throw_leaves_version_body (apiKey prompt : string)
      (version : GeminiApiVersion) (w : World) (models : list GeminiModel) (e : JsError) :
  let l := listModels JSON_parse fetch version apiKey w in
  let r := candidate_loop JSON_parse JSON_stringify fetch version apiKey prompt
                          (generateCapable_of models)
                          (candidates_of (available_of models)) (final l) in
  result l = Ok models ->
  result r = Throw e ->
  version_body JSON_parse JSON_stringify fetch apiKey prompt version w =
  MkRun (Throw e) (final r) (trace l ++ trace r).
Proof.
  intros l r Hl Hr. rewrite version_body_run. cbn zeta. fold l. rewrite Hl.
  fold r. now rewrite Hr.
Qed.

Lemma version_throw_leaves_version_loop (apiKey prompt : string)
      (version : GeminiApiVersion) (rest : list GeminiApiVersion) (w : World)
      (e : JsError) :
  let b := version_body JSON_parse JSON_stringify fetch apiKey prompt version w in
  result b = Throw e ->
  version_loop JSON_parse JSON_stringify fetch apiKey prompt (version :: rest) w =
  MkRun (Throw e) (final b) (trace b).
Proof. intros b Hb. rewrite version_loop_cons. now apply bind_throw. Qed.

Lemma version_loop_throw_leaves_selection (apiKey prompt : string) (w : World)
      (e : JsError) :
  let r := version_loop JSON_parse JSON_stringify fetch apiKey prompt [V1beta; V1] w in
  result r = Throw e ->
  generateWithAutoPick JSON_parse JSON_stringify fetch apiKey prompt w =
  MkRun (Throw e) (final r) (trace r).
Proof. intros r Hr. unfold generateWithAutoPick. now apply bind_throw. Qed.

(** C9. When the listing throws for both versions, whatever the reason
    (transport error, any status outside 200..299 such as 401 or 403, a
    body that does not parse), [generateWithAutoPick] throws the fixed
    exhaustion error after the two listing requests and their warnings;
    the listing errors themselves only appear in the warnings. *)
Theorem failed_listings_surface_as_exhaustion
        (apiKey prompt : string) (w : World) (e1 e2 : JsError) :
  let l1 := listModels JSON_parse fetch V1beta apiKey w in
  let l2 := listModels JSON_parse fetch V1 apiKey (final l1) in
  result l1 = Throw e1 ->
  result l2 = Throw e2 ->
  generateWithAutoPick JSON_parse JSON_stringify fetch apiKey prompt w =
    MkRun (Throw exhausted) (final l2)
          [listing V1beta apiKey; EvWarn (warn_list_failed V1beta e1);
           listing V1 apiKey; EvWarn (warn_list_failed V1 e2)] /\
  message exhausted = "No working Gemini model found (checked v1beta/v1)." /\
  (forall (v : GeminiApiVersion) (resp : Response),
      status_ok (status resp) = false ->
      listing_result JSON_parse v (Responded resp) =
      Throw (Error (list_failed_msg v resp))).
Proof.
  intros l1 l2 H1 H2. split; [|split].
  - unfold generateWithAutoPick. rewrite bind_run.
    rewrite (version_loop_listing_throws apiKey prompt V1beta [V1] w e1 H1).
    fold l1.
    rewrite (version_loop_listing_throws apiKey prompt V1 [] (final l1) e2 H2).
    reflexivity.
  - reflexivity.
  - intros v resp Hst. cbn [listing_result]. now rewrite Hst.
Qed.

(** *** Call sites *)

(** C7. [generateContent] goes through the retrier with 3 retries and a
    timeout of 30000 ms: its requests are all the same generate request,
    one plus one for each retryable outcome among the first three, so
    between 1 and 4. [listModels] makes exactly one request, with a
    timeout of 15000 ms, whatever the outcome: it is never retried. *)
Theorem call_sites_budget_and_timeout
        (version : GeminiApiVersion) (model apiKey prompt : string) (w : World) :
  let url := generate_url version model in
  let init := generate_init JSON_stringify apiKey prompt in
  let g := generateContent JSON_parse JSON_stringify fetch version model apiKey prompt w in
  let n := leading_retryable (outcomes fetch url init 30000 3 w) in
  attempts (trace g) = replicate (S n) (EvFetch url init 30000) /\
  (1 <= length (attempts (trace g)) <= 4)%nat /\
  trace (listModels JSON_parse fetch version apiKey w) =
    [EvFetch (list_url version) (list_init apiKey) 15000].
Proof.
  intros url init g n.
  assert (Hatt : attempts (trace g) = replicate (S n) (EvFetch url init 30000)).
  { subst g. rewrite generateContent_run. cbn [trace].
    unfold postJsonWithRetry. now apply retry_loop_attempts. }
  split; [exact Hatt|]. split.
  - rewrite Hatt, length_replicate. subst n.
    pose proof (leading_retryable_le (outcomes fetch url init 30000 3 w)) as Hle.
    rewrite outcomes_length in Hle. lia.
  - now rewrite listModels_run.
Qed.

(** *** The capability filter *)

Lemma capable_member (models : list GeminiModel) (m : GeminiModel) (name : string) :
  m ∈ models ->
  model_name m = Some name ->
  modelSupportsGenerateContent m = true ->
  shortModelName name ∈ generateCapable_of models.
Proof.
  intros Hin Hname Hcap. unfold generateCapable_of.
  apply elem_of_list_to_set, list_elem_of_fmap. exists m. split.
  - unfold name_of. now rewrite Hname.
  - apply list_elem_of_filter. split; [|exact Hin].
    unfold has_string_name. rewrite Hname, Hcap.
    rewrite bool_decide_eq_true_2 by eauto. reflexivity.
Qed.

Lemma member_not_skipped (generateCapable : gset string) (model : string) :
  model ∈ generateCapable -> skipped generateCapable model = false.
Proof.
  intros Hin. unfold skipped.
  rewrite (bool_decide_eq_true_2 (model ∈ generateCapable)) by exact Hin.
  apply andb_false_r.
Qed.

(** A candidate the filter lets through is attempted: the iteration
    opens with its generate request. *)
Lemma not_skipped_is_attempted (version : GeminiApiVersion) (apiKey prompt : string)
      (generateCapable : gset string) (model : string) (w : World) :
  skipped generateCapable model = false ->
  exists rest,
    trace (candidate_body JSON_parse JSON_stringify fetch version apiKey prompt
                          generateCapable model w) =
    generation version model apiKey prompt :: rest.
Proof.
  intros Hskip. rewrite candidate_body_run, Hskip. cbn zeta.
  destruct (generateContent_trace_head version model apiKey prompt w) as [rest Hrest].
  destruct (result (generateContent _ _ _ version model apiKey prompt w)) as [text|e];
    cbn [trace]; rewrite Hrest; eexists; reflexivity.
Qed.

End Selector.

(** ** The candidate order *)

Lemma filter_swap (P Q : string -> Prop)
      `{!forall x, Decision (P x), !forall x, Decision (Q x)} (l : list string) :
  filter P (filter Q l) = filter Q (filter P l).
Proof.
  rewrite !list_filter_filter. apply list_filter_iff. naive_solver.
Qed.

Lemma first_occurrences_elem (x : string) (l : list string) :
  x ∈ first_occurrences l <-> x ∈ l.
Proof.
  induction l as [|a l IH]; [reflexivity|].
  cbn [first_occurrences]. rewrite !elem_of_cons, list_elem_of_filter, IH.
  destruct (decide (x = a)); naive_solver.
Qed.

Lemma first_occurrences_NoDup (l : list string) : NoDup (first_occurrences l).
Proof.
  induction l as [|a l IH]; cbn [first_occurrences]; [constructor|].
  constructor.
  - rewrite list_elem_of_filter. naive_solver.
  - now apply NoDup_filter.
Qed.

(** Filtering commutes with keeping first occurrences. *)
Lemma filter_first_occurrences (P : string -> Prop) `{!forall x, Decision (P x)}
      (l : list string) :
  filter P (first_occurrences l) = first_occurrences (filter P l).
Proof.
  induction l as [|a l IH]; [reflexivity|].
  cbn [first_occurrences]. destruct (decide (P a)) as [Ha|Ha].
  - rewrite !filter_cons_True by exact Ha. cbn [first_occurrences].
    now rewrite filter_swap, IH.
  - rewrite !filter_cons_False by exact Ha. rewrite <- IH.
    apply list_filter_filter_l. intros x Hx ->. contradiction.
Qed.

(** A list without repetition is its own list of first occurrences. *)
Lemma first_occurrences_id (l : list string) : NoDup l -> first_occurrences l = l.
Proof.
  induction 1 as [|a l Ha Hl IH]; [reflexivity|].
  cbn [first_occurrences]. rewrite IH. f_equal.
  clear IH Hl. induction l as [|b l IHl]; [reflexivity|].
  apply not_elem_of_cons in Ha as [Hab Ha].
  rewrite filter_cons_True by congruence. f_equal. now apply IHl.
Qed.

(** The second loop of the source, from any list already built. *)
Lemma foldl_push_absent (l init : list string) :
  foldl push_absent init l =
  init ++ first_occurrences (filter (fun a => a ∉ init) l).
Proof.
  revert init. induction l as [|a l IH]; intros init.
  - cbn. now rewrite app_nil_r.
  - cbn [foldl]. rewrite IH. unfold push_absent. case_bool_decide as Ha.
    + rewrite (filter_cons_False _ a) by naive_solver. reflexivity.
    + rewrite (filter_cons_True _ a) by exact Ha. cbn [first_occurrences].
      rewrite <- app_assoc. cbn [app]. do 2 f_equal.
      rewrite filter_first_occurrences, list_filter_filter. f_equal.
      apply list_filter_iff. intros x. rewrite elem_of_app, list_elem_of_singleton.
      naive_solver.
Qed.

Lemma candidates_of_order (available : list string) :
  candidates_of available = candidate_order_spec available.
Proof. unfold candidates_of, candidate_order_spec. apply foldl_push_absent. Qed.

Lemma candidates_of_NoDup (available : list string) : NoDup (candidates_of available).
Proof.
  rewrite candidates_of_order. unfold candidate_order_spec. apply NoDup_app.
  split; [|split].
  - apply NoDup_filter. unfold preferred. repeat constructor; set_solver.
  - intros x Hx. rewrite first_occurrences_elem, list_elem_of_filter. naive_solver.
  - apply first_occurrences_NoDup.
Qed.

Lemma candidates_of_elem (available : list string) (x : string) :
  x ∈ candidates_of available <-> x ∈ available.
Proof.
  rewrite candidates_of_order. unfold candidate_order_spec.
  rewrite elem_of_app, first_occurrences_elem, !list_elem_of_filter.
  destruct (decide (x ∈ preferred)); naive_solver.
Qed.

Lemma generate_url_inj (version : GeminiApiVersion) (m1 m2 : string) :
  generate_url version m1 = generate_url version m2 -> m1 = m2.
Proof.
  unfold generate_url. intros H.
  do 3 apply String.app_inj in H.
  now apply string_app_inv_tail in H.
Qed.

Lemma elem_of_attempts (ev : Event) (tr : list Event) :
  ev ∈ tr -> is_fetch ev = true -> ev ∈ attempts tr.
Proof.
  intros Hin Hf. apply list_elem_of_In, List.filter_In.
  split; [now apply list_elem_of_In | exact Hf].
Qed.


Section Ordering.

Context {World : Type}.
Variable JSON_parse : string -> string + JSON.
Variable JSON_stringify : JSON -> string.
Variable fetch : string -> RequestInit -> Z -> World -> Outcome * World.
Variables (version : GeminiApiVersion) (apiKey prompt : string).
Variable generateCapable : gset string.

Local Abbreviation generation model :=
  (EvFetch (generate_url version model) (generate_init JSON_stringify apiKey prompt) 30000).
Local Abbreviation body :=
  (candidate_body JSON_parse JSON_stringify fetch version apiKey prompt generateCapable).
Local Abbreviation loop :=
  (candidate_loop JSON_parse JSON_stringify fetch version apiKey prompt generateCapable).

(** The requests of one iteration are all for its own candidate. *)
Lemma body_fetches (model : string) (w : World)
      (url : string) (init : RequestInit) (timeoutMs : Z) :
  EvFetch url init timeoutMs ∈ trace (body model w) ->
  EvFetch url init timeoutMs = generation model.
Proof.
  rewrite candidate_body_run.
  destruct (skipped generateCapable model); [cbn; now intros ?%elem_of_nil|].
  cbn zeta. intros Hin.
  assert (Hg : EvFetch url init timeoutMs ∈
               trace (generateContent JSON_parse JSON_stringify fetch version model
                                      apiKey prompt w)).
  { destruct (result (generateContent _ _ _ version model apiKey prompt w));
      cbn [trace] in Hin; [exact Hin|].
    apply elem_of_app in Hin as [Hin|Hin]; [exact Hin|].
    apply list_elem_of_singleton in Hin. discriminate. }
  apply elem_of_attempts in Hg; [|reflexivity].
  rewrite generateContent_run in Hg. cbn [trace] in Hg.
  unfold postJsonWithRetry in Hg.
  rewrite (retry_loop_attempts fetch _ _ _ 3 3 0 None w eq_refl) in Hg.
  now apply elem_of_replicate in Hg as [-> _].
Qed.

(** The loop over a concatenation: the first part, then the second if
    the first ran out of candidates. *)
Lemma candidate_loop_app (l1 l2 : list string) (w : World) :
  loop (l1 ++ l2) w =
  let r1 := loop l1 w in
  match result r1 with
  | Ok None =>
      let r2 := loop l2 (final r1) in
      MkRun (result r2) (final r2) (trace r1 ++ trace r2)
  | _ => r1
  end.
Proof.
  revert w. induction l1 as [|m l1 IH]; intros w.
  - cbn. now destruct (loop l2 w).
  - cbn [app]. rewrite !candidate_loop_cons, !bind_run.
    destruct (result (body m w)) as [[[]|sel]|e]; cbn [result final trace].
    + rewrite IH. cbn zeta.
      destruct (result (loop l1 (final (body m w)))) as [[sel|]|e] eqn:Hres;
        cbn [result final trace]; rewrite ?Hres; try reflexivity.
      now rewrite app_assoc.
    + reflexivity.
    + reflexivity.
Qed.




End Ordering.



(** ** Determinism *)

Section Determinism.

Context {World : Type}.
Variable JSON_parse : string -> string + JSON.
Variable JSON_stringify : JSON -> string.
Variable fetch : string -> RequestInit -> Z -> World -> Outcome * World.
Variable R : World -> World -> Prop.
Hypothesis fetch_stable : stable_upstream R fetch.

Local Abbreviation same := (same_observations R).

Lemma same_ret {A} (a : A) : same (mret a).
Proof. intros w1 w2 HR. now repeat split. Qed.

Lemma same_throw {A} (e : JsError) : same (@throw World A e).
Proof. intros w1 w2 HR. now repeat split. Qed.

Lemma same_emit (ev : Event) : same (emit ev).
Proof. intros w1 w2 HR. now repeat split. Qed.

Lemma same_bind {A B} (m : M World A) (k : A -> M World B) :
  same m -> (forall a, same (k a)) -> same (m ≫= k).
Proof.
  intros Hm Hk w1 w2 HR. destruct (Hm w1 w2 HR) as (Hres & Htr & HRf).
  rewrite !bind_run, Hres, Htr.
  destruct (result (m w2)) as [a|e]; cbn [result final trace].
  - destruct (Hk a _ _ HRf) as (Hres' & Htr' & HRf'). now rewrite Hres', Htr'.
  - now repeat split.
Qed.

Lemma same_try_catch {A} (m : M World A) (h : JsError -> M World A) :
  same m -> (forall e, same (h e)) -> same (try_catch m h).
Proof.
  intros Hm Hh w1 w2 HR. destruct (Hm w1 w2 HR) as (Hres & Htr & HRf).
  unfold try_catch. rewrite Hres.
  destruct (result (m w2)) as [a|e] eqn:Hres2; cbn [result final trace].
  - repeat split; [congruence | exact Htr | exact HRf].
  - destruct (Hh e _ _ HRf) as (Hres' & Htr' & HRf'). now rewrite Hres', Htr', Htr.
Qed.

Lemma same_fetchWithTimeout (url : string) (init : RequestInit) (timeoutMs : Z) :
  same (fetchWithTimeout fetch url init timeoutMs).
Proof.
  intros w1 w2 HR. rewrite !fetchWithTimeout_run. cbn [result final trace].
  destruct (fetch_stable url init timeoutMs w1 w2 HR) as [Ho HR'].
  now rewrite Ho.
Qed.

Ltac same_step :=
  first [ apply same_ret | apply same_throw | apply same_emit
        | apply same_fetchWithTimeout
        | apply same_bind; [|intros ?] | apply same_try_catch; [|intros ?] ].

Lemma same_retry_body (url : string) (init : RequestInit) (timeoutMs : Z)
      (retries i : nat) (lastErr : option JsError) :
  same (retry_body fetch url init timeoutMs retries i lastErr).
Proof.
  unfold retry_body, warn, sleep. apply same_try_catch.
  - apply same_bind; [apply same_fetchWithTimeout|]. intros resp.
    destruct (status_ok (status resp)); [apply same_ret|].
    destruct (isRetryableStatus (status resp) && (i <? retries)%nat);
      repeat same_step.
  - intros e. destruct (i <? retries)%nat; repeat same_step.
Qed.

Lemma same_retry_loop (url : string) (init : RequestInit) (timeoutMs : Z)
      (retries remaining : nat) :
  forall (i : nat) (lastErr : option JsError),
    same (retry_loop fetch url init timeoutMs retries remaining i lastErr).
Proof.
  induction remaining as [|remaining IH]; intros i lastErr.
  - apply same_throw.
  - cbn [retry_loop]. apply same_bind; [apply same_retry_body|].
    intros [lastErr'|resp]; [apply IH | apply same_ret].
Qed.

Lemma same_listModels (version : GeminiApiVersion) (apiKey : string) :
  same (listModels JSON_parse fetch version apiKey).
Proof.
  unfold listModels. apply same_bind; [apply same_fetchWithTimeout|]. intros resp.
  destruct (negb (status_ok (status resp))); [apply same_throw|].
  destruct (JSON_parse (raw resp)); [apply same_throw | apply same_ret].
Qed.

Lemma same_generateContent (version : GeminiApiVersion) (model apiKey prompt : string) :
  same (generateContent JSON_parse JSON_stringify fetch version model apiKey prompt).
Proof.
  unfold generateContent, postJsonWithRetry.
  apply same_bind; [apply same_retry_loop|]. intros resp.
  destruct (negb (status_ok (status resp))); [apply same_throw|].
  destruct (JSON_parse (raw resp)) as [err|data]; [apply same_throw|].
  destruct (Js.as_string (generated_text data)) as [text|]; [|apply same_throw].
  destruct (JsString.trim_is_empty text); [apply same_throw | apply same_ret].
Qed.

Lemma same_candidate_loop (version : GeminiApiVersion) (apiKey prompt : string)
      (generateCapable : gset string) (candidates : list string) :
  same (candidate_loop JSON_parse JSON_stringify fetch version apiKey prompt
                       generateCapable candidates).
Proof.
  induction candidates as [|model rest IH]; [apply same_ret|].
  cbn [candidate_loop]. apply same_bind.
  - unfold candidate_body. destruct (skipped generateCapable model); [apply same_ret|].
    apply same_try_catch.
    + apply same_bind; [apply same_generateContent | intros text; apply same_ret].
    + intros e. unfold warn. apply same_bind; [apply same_emit|]. intros _.
      destruct (isGeminiNotFoundOrUnsupported (message e));
        [apply same_ret | apply same_throw].
  - intros [[]|sel]; [exact IH | apply same_ret].
Qed.

Lemma same_version_loop (apiKey prompt : string) (versions : list GeminiApiVersion) :
  same (version_loop JSON_parse JSON_stringify fetch apiKey prompt versions).
Proof.
  induction versions as [|version rest IH]; [apply same_ret|].
  cbn [version_loop]. apply same_bind.
  - unfold version_body. apply same_bind.
    + apply same_try_catch.
      * apply same_bind; [apply same_listModels | intros models; apply same_ret].
      * intros e. unfold warn. apply same_bind; [apply same_emit|].
        intros _. apply same_ret.
    + intros [models|]; [apply same_candidate_loop | apply same_ret].
  - intros [sel|]; [apply same_ret | exact IH].
Qed.

Lemma same_generateWithAutoPick (apiKey prompt : string) :
  same (generateWithAutoPick JSON_parse JSON_stringify fetch apiKey prompt).
Proof.
  unfold generateWithAutoPick. apply same_bind; [apply same_version_loop|].
  intros [sel|]; [apply same_ret | apply same_throw].
Qed.

End Determinism.

(** C8. Two runs of [generateWithAutoPick] with the same key and prompt,
    from upstream states that answer every request alike (and keep doing
    so), end alike: the same (version, model) is picked, or the same error
    is thrown, after the same requests. *)
Theorem selection_is_deterministic
        {World : Type} (JSON_parse : string -> string + JSON)
        (JSON_stringify : JSON -> string)
        (fetch : string -> RequestInit -> Z -> World -> Outcome * World)
        (R : World -> World -> Prop) (apiKey prompt : string) (w1 w2 : World) :
  let r1 := generateWithAutoPick JSON_parse JSON_stringify fetch apiKey prompt w1 in
  let r2 := generateWithAutoPick JSON_parse JSON_stringify fetch apiKey prompt w2 in
  stable_upstream R fetch ->
  R w1 w2 ->
  picked (result r1) = picked (result r2) /\
  result r1 = result r2 /\
  trace r1 = trace r2.
Proof.
  intros r1 r2 Hstable HR.
  destruct (same_generateWithAutoPick JSON_parse JSON_stringify fetch R Hstable
              apiKey prompt w1 w2 HR) as (Hres & Htr & _).
  subst r1 r2. now rewrite Hres, Htr.
Qed.

(** A second call made right after a first one, against an upstream
    whose answers depend on the request only: both pick
    [gemini-2.0-flash] on [v1beta]. *)
Lemma selection_is_deterministic_witness :
  let fetch := Demo.counting_fetch (Demo.upstream (Demo.reply 404 "")) in
  let r1 := generateWithAutoPick Demo.parse Demo.stringify fetch "key" "prompt" 0%nat in
  let r2 := generateWithAutoPick Demo.parse Demo.stringify fetch "key" "prompt" (final r1) in
  final r1 = 3%nat /\
  picked (result r1) = Some (V1beta, "gemini-2.0-flash") /\
  picked (result r1) = picked (result r2) /\
  result r1 = result r2 /\
  trace r1 = trace r2.
Proof.
  intros fetch r1 r2.
  split; [reflexivity|]. split; [reflexivity|].
  apply (selection_is_deterministic Demo.parse Demo.stringify fetch (fun _ _ => True)
           "key" "prompt" 0%nat (final r1)).
  - intros url init timeoutMs w1 w2 _. split; [reflexivity | exact I].
  - exact I.
Defined.

(** What [available] holds. *)
Lemma available_of_elem (models : list GeminiModel) (c : string) :
  c ∈ available_of models <->
  c <> "" /\ exists m full, m ∈ models /\ model_name m = Some full /\ c = shortModelName full.
Proof.
  unfold available_of. rewrite list_elem_of_filter, list_elem_of_fmap. split.
  - intros [Hc (m & -> & Hm)]. apply list_elem_of_filter in Hm as [Hname Hm].
    unfold has_string_name in Hname. apply bool_decide_eq_true_1 in Hname as [full Hfull].
    split.
    + intros Heq. rewrite Heq in Hc. discriminate.
    + exists m, full. unfold name_of. now rewrite Hfull.
  - intros [Hc (m & full & Hm & Hfull & ->)]. split.
    + destruct (shortModelName full); [contradiction | reflexivity].
    + exists m. split.
      * unfold name_of. now rewrite Hfull.
      * apply list_elem_of_filter. split; [|exact Hm].
        unfold has_string_name. rewrite Hfull. apply bool_decide_eq_true_2. eauto.
Qed.

(** ** The selection as a whole *)

Section SelectionRuns.

Context {World : Type}.
Variable JSON_parse : string -> string + JSON.
Variable JSON_stringify : JSON -> string.
Variable fetch : string -> RequestInit -> Z -> World -> Outcome * World.
Variables (apiKey prompt : string).

Local Abbreviation listing v := (EvFetch (list_url v) (list_init apiKey) 15000).
Local Abbreviation generation v model :=
  (EvFetch (generate_url v model) (generate_init JSON_stringify apiKey prompt) 30000).
Local Abbreviation post v model :=
  (postJsonWithRetry fetch (generate_url v model)
                     (generate_init JSON_stringify apiKey prompt) 30000 3).
Local Abbreviation generate v model :=
  (generateContent JSON_parse JSON_stringify fetch v model apiKey prompt).
Local Abbreviation list_models v := (listModels JSON_parse fetch v apiKey).
Local Abbreviation loop v gc :=
  (candidate_loop JSON_parse JSON_stringify fetch v apiKey prompt gc).
Local Abbreviation vbody :=
  (version_body JSON_parse JSON_stringify fetch apiKey prompt).
Local Abbreviation vloop :=
  (version_loop JSON_parse JSON_stringify fetch apiKey prompt).
Local Abbreviation pick :=
  (generateWithAutoPick JSON_parse JSON_stringify fetch apiKey prompt).

(** The selection is its version loop, with the final [throw] for the
    case that nothing was found. *)
Lemma generateWithAutoPick_run (w : World) :
  pick w =
  MkRun (selection_result (result (vloop [V1beta; V1] w)))
        (final (vloop [V1beta; V1] w)) (trace (vloop [V1beta; V1] w)).
Proof.
  unfold generateWithAutoPick. rewrite bind_run.
  destruct (vloop [V1beta; V1] w) as [[[sel|]|e] w' tr]; cbn; now rewrite ?app_nil_r.
Qed.

(** The version loop over a concatenation: the first part, then the
    second if the first found nothing. *)
Lemma version_loop_app (l1 l2 : list GeminiApiVersion) (w : World) :
  vloop (l1 ++ l2) w =
  let r1 := vloop l1 w in
  match result r1 with
  | Ok None =>
      let r2 := vloop l2 (final r1) in
      MkRun (result r2) (final r2) (trace r1 ++ trace r2)
  | _ => r1
  end.
Proof.
  revert w. induction l1 as [|v l1 IH]; intros w.
  - cbn. now destruct (vloop l2 w).
  - cbn [app]. rewrite !version_loop_cons, !bind_run.
    destruct (result (vbody v w)) as [[sel|]|e]; cbn [result final trace].
    + reflexivity.
    + rewrite IH. cbn zeta.
      destruct (result (vloop l1 (final (vbody v w)))) as [[sel|]|e] eqn:Hres;
        cbn [result final trace]; rewrite ?Hres; try reflexivity.
      now rewrite app_assoc.
    + reflexivity.
Qed.

(** *** A run that gets to a version

    The selection from [w0] gets to [version] when the versions before
    it in the fixed order have found nothing. *)

Variable w0 : World.
Variables (earlier later : list GeminiApiVersion) (version : GeminiApiVersion).

Local Abbreviation p := (vloop earlier w0).

Hypothesis this_version : [V1beta; V1] = earlier ++ version :: later.
Hypothesis earlier_found_nothing : result p = Ok None.

Lemma selection_at_version :
  let b := vbody version (final p) in
  pick w0 =
  match result b with
  | Ok None =>
      let n := vloop later (final b) in
      MkRun (selection_result (result n)) (final n) (trace p ++ trace b ++ trace n)
  | found => MkRun (selection_result found) (final b) (trace p ++ trace b)
  end.
Proof.
  intros b. rewrite generateWithAutoPick_run, this_version, version_loop_app.
  cbn zeta. rewrite earlier_found_nothing.
  rewrite version_loop_cons, bind_run. fold b.
  destruct (result b) as [[sel|]|e]; cbn [result final trace mret M_ret ret];
    rewrite ?app_nil_r; reflexivity.
Qed.

(** The same run, seen from a point of the candidate loop: the
    candidates [done] have been gone through without a selection, and
    [cs] are still to come. *)
Lemma selection_at_candidates (models : list GeminiModel) (done cs : list string) :
  let l := list_models version (final p) in
  let gc := generateCapable_of models in
  let d := loop version gc done (final l) in
  let c := loop version gc cs (final d) in
  result l = Ok models ->
  candidates_of (available_of models) = done ++ cs ->
  result d = Ok None ->
  pick w0 =
  match result c with
  | Ok None =>
      let n := vloop later (final c) in
      MkRun (selection_result (result n)) (final n)
            (trace p ++ trace l ++ trace d ++ trace c ++ trace n)
  | found =>
      MkRun (selection_result found) (final c) (trace p ++ trace l ++ trace d ++ trace c)
  end.
Proof.
  intros l gc d c Hl Hsplit Hd.
  rewrite selection_at_version. cbn zeta.
  rewrite version_body_run. cbn zeta. fold l. rewrite Hl. fold gc.
  rewrite Hsplit, candidate_loop_app. cbn zeta. fold d. rewrite Hd. fold c.
  cbn [result final trace].
  destruct (result c) as [[sel|]|e]; cbn [result final trace];
    rewrite <- ?app_assoc; reflexivity.
Qed.

(** A candidate that is reached and not skipped is requested next. *)
Lemma reached_candidate_is_requested (models : list GeminiModel)
      (done rest : list string) (model : string) :
  let l := list_models version (final p) in
  let gc := generateCapable_of models in
  let d := loop version gc done (final l) in
  result l = Ok models ->
  candidates_of (available_of models) = done ++ model :: rest ->
  result d = Ok None ->
  skipped gc model = false ->
  exists tail,
    trace (pick w0) = trace p ++ trace l ++ trace d ++ generation version model :: tail.
Proof.
  intros l gc d Hl Hsplit Hd Hskip.
  rewrite (selection_at_candidates models done (model :: rest) Hl Hsplit Hd).
  fold l gc d.
  assert (Hhead : exists tail, trace (loop version gc (model :: rest) (final d)) =
                               generation version model :: tail).
  { rewrite candidate_loop_cons, bind_run.
    destruct (not_skipped_is_attempted JSON_parse JSON_stringify fetch version apiKey
                prompt gc model (final d) Hskip) as [tl Htl].
    destruct (result (candidate_body _ _ _ version apiKey prompt gc model (final d)))
      as [[[]|sel]|e]; cbn [trace]; rewrite Htl; eexists; reflexivity. }
  destruct Hhead as [tl Htl].
  destruct (result (loop version gc (model :: rest) (final d))) as [[sel|]|e];
    cbn [trace]; rewrite Htl; eexists; reflexivity.
Qed.

(** The run when the attempt on a reached candidate fails: the message
    alone decides between the next candidate and the end of the whole
    selection. *)
Lemma selection_at_failed_attempt (models : list GeminiModel)
      (done rest : list string) (model : string) (e : JsError) :
  let l := list_models version (final p) in
  let gc := generateCapable_of models in
  let d := loop version gc done (final l) in
  let g := generate version model (final d) in
  let failed := trace p ++ trace l ++ trace d ++ trace g
                  ++ [EvWarn (warn_generate_failed (message e))] in
  let c := loop version gc rest (final g) in
  let n := vloop later (final c) in
  result l = Ok models ->
  candidates_of (available_of models) = done ++ model :: rest ->
  result d = Ok None ->
  skipped gc model = false ->
  result g = Throw e ->
  pick w0 =
  if isGeminiNotFoundOrUnsupported (message e) then
    match result c with
    | Ok None =>
        MkRun (selection_result (result n)) (final n) (failed ++ trace c ++ trace n)
    | found => MkRun (selection_result found) (final c) (failed ++ trace c)
    end
  else MkRun (Throw e) (final g) failed.
Proof.
  intros l gc d g failed c n Hl Hsplit Hd Hskip Hg.
  rewrite (selection_at_candidates models done (model :: rest) Hl Hsplit Hd).
  fold l gc d.
  rewrite (candidate_loop_failed_attempt JSON_parse JSON_stringify fetch version apiKey
             prompt gc model rest (final d) e Hskip Hg).
  fold g c. subst failed.
  destruct (isGeminiNotFoundOrUnsupported (message e)); cbn [result final trace].
  - fold n. destruct (result c) as [[sel|]|e']; rewrite <- ?app_assoc; reflexivity.
  - cbn [selection_result]. rewrite <- ?app_assoc. reflexivity.
Qed.

(** C1 (amended). A generate-content response of status 200 whose
    generated-text field is missing, not a string, empty or white space
    only is a failure: [generateContent] throws the "response is empty"
    error and never returns a text. The whole selection then ends with
    that error, right after the warning: no further candidate or version
    is tried. Only when the message (which carries the version, the
    model name and the raw body) contains one of the mismatch markers
    does the selection go on with the next candidate, and with the
    versions left once the candidates run out. *)
Theorem empty_text_is_a_failure_classified_by_message
        (models : list GeminiModel) (done rest : list string) (model : string)
        (resp : Response) (data : JSON) :
  let l := list_models version (final p) in
  let gc := generateCapable_of models in
  let d := loop version gc done (final l) in
  let g := generate version model (final d) in
  let e := Error (empty_response_msg version model resp) in
  let failed := trace p ++ trace l ++ trace d ++ trace g
                  ++ [EvWarn (warn_generate_failed (message e))] in
  let c := loop version gc rest (final g) in
  let n := vloop later (final c) in
  result l = Ok models ->
  candidates_of (available_of models) = done ++ model :: rest ->
  result d = Ok None ->
  skipped gc model = false ->
  result (post version model (final d)) = Ok resp ->
  status resp = 200 ->
  JSON_parse (raw resp) = inr data ->
  text_missing_or_blank data = true ->
  result g = Throw e /\
  pick w0 =
    if isGeminiNotFoundOrUnsupported (message e) then
      match result c with
      | Ok None =>
          MkRun (selection_result (result n)) (final n) (failed ++ trace c ++ trace n)
      | found => MkRun (selection_result found) (final c) (failed ++ trace c)
      end
    else MkRun (Throw e) (final g) failed.
Proof.
  intros l gc d g e failed c n Hl Hsplit Hd Hskip Hpost Hst Hparse Hblank.
  assert (Hg : result g = Throw e).
  { subst g. rewrite generateContent_run. cbn [result]. rewrite Hpost.
    cbn [generation_result]. rewrite Hst, status_200_ok, Hparse.
    unfold text_missing_or_blank in Hblank.
    destruct (Js.as_string (generated_text data)) as [t|]; [|reflexivity].
    now rewrite Hblank. }
  split; [exact Hg|].
  now apply selection_at_failed_attempt.
Qed.

(** C2 (amended). A failed generate-content attempt is classified by its
    error message alone. When the message contains none of the four
    markers (colon space 404, quoted code colon space 404, NOT_FOUND, not
    supported), the whole selection ends at once with that error: its
    run stops at the warning, with no further candidate and no further
    version. When it contains one, the selection goes on with the next
    candidate, and with the versions left once the candidates run out.
    A response of status 404 always carries the first marker, so it
    always goes on; a response of another error status goes on or stops
    according to what its body and the model name contain. *)
Theorem failure_is_classified_by_message
        (models : list GeminiModel) (done rest : list string) (model : string)
        (e : JsError) :
  let l := list_models version (final p) in
  let gc := generateCapable_of models in
  let d := loop version gc done (final l) in
  let g := generate version model (final d) in
  let failed := trace p ++ trace l ++ trace d ++ trace g
                  ++ [EvWarn (warn_generate_failed (message e))] in
  let c := loop version gc rest (final g) in
  let n := vloop later (final c) in
  result l = Ok models ->
  candidates_of (available_of models) = done ++ model :: rest ->
  result d = Ok None ->
  skipped gc model = false ->
  result g = Throw e ->
  pick w0 =
    (if isGeminiNotFoundOrUnsupported (message e) then
       match result c with
       | Ok None =>
           MkRun (selection_result (result n)) (final n) (failed ++ trace c ++ trace n)
       | found => MkRun (selection_result found) (final c) (failed ++ trace c)
       end
     else MkRun (Throw e) (final g) failed) /\
  (forall resp : Response,
      result (post version model (final d)) = Ok resp ->
      status_ok (status resp) = false ->
      e = Error (generate_failed_msg version model resp) /\
      (status resp = 404 -> isGeminiNotFoundOrUnsupported (message e) = true)).
Proof.
  intros l gc d g failed c n Hl Hsplit Hd Hskip Hg. split.
  - now apply selection_at_failed_attempt.
  - intros resp Hpost Hst.
    assert (He : e = Error (generate_failed_msg version model resp)).
    { subst g. rewrite generateContent_run in Hg. cbn [result] in Hg.
      rewrite Hpost in Hg. cbn [generation_result] in Hg. rewrite Hst in Hg.
      congruence. }
    split; [exact He|]. intros H404. rewrite He.
    now apply status_404_is_a_mismatch.
Qed.

(** C5. When the listing call of a version fails (a network error or a
    timeout, or a status outside 200..299), [listModels] throws, and the
    call of [generateWithAutoPick] is not aborted: the failure is logged
    as a warning and the selection proceeds with the versions that come
    after this one in the fixed order. Its run is the listing request,
    the warning, and then the run over those versions, which opens with
    the listing request of the next one; its result is theirs, the
    exhaustion error if they find nothing. *)
Theorem listing_failure_is_not_fatal :
  let o := (fetch (list_url version) (list_init apiKey) 15000 (final p)).1 in
  let w' := (fetch (list_url version) (list_init apiKey) 15000 (final p)).2 in
  let n := vloop later w' in
  listing_failed o = true ->
  exists e : JsError,
    result (list_models version (final p)) = Throw e /\
    pick w0 =
      MkRun (selection_result (result n)) (final n)
            (trace p ++ [listing version; EvWarn (warn_list_failed version e)] ++ trace n) /\
    head (trace n) = head ((fun v => listing v) <$> later).
Proof.
  intros o w' n Hfail.
  assert (Hl : exists e, result (list_models version (final p)) = Throw e).
  { rewrite listModels_run. cbn [result]. fold o.
    destruct o as [resp|e]; cbn [listing_failed listing_result] in *.
    - apply negb_true_iff in Hfail. rewrite Hfail. eauto.
    - eauto. }
  destruct Hl as [e Hl]. exists e. split; [exact Hl|]. split.
  - rewrite selection_at_version. cbn zeta.
    rewrite version_body_run. cbn zeta. rewrite Hl. cbn [result final trace].
    rewrite listModels_run. cbn [final trace]. fold w' n.
    rewrite <- app_assoc. reflexivity.
  - apply version_loop_trace_head.
Qed.

(** What the selection does with a catalog entry that passes the
    capability test and has a name to ask for. *)
Lemma capable_entry_is_a_candidate (models : list GeminiModel) (m : GeminiModel)
      (name : string) :
  m ∈ models ->
  model_name m = Some name ->
  shortModelName name <> "" ->
  modelSupportsGenerateContent m = true ->
  shortModelName name ∈ generateCapable_of models /\
  shortModelName name ∈ candidates_of (available_of models) /\
  skipped (generateCapable_of models) (shortModelName name) = false.
Proof.
  intros Hin Hname Hbare Hcap.
  assert (Hmem : shortModelName name ∈ generateCapable_of models)
    by now apply (capable_member models m).
  split; [exact Hmem|]. split; [|now apply member_not_skipped].
  apply candidates_of_elem, available_of_elem. split; [exact Hbare|].
  now exists m, name.
Qed.

(** C6 (amended). A catalog entry that has a string name with something
    after the [models/] prefix and no [supportedGenerationMethods] field
    counts as generate-capable and is attempted: its bare name is in
    [generateCapable], it is one of the candidates, the capability
    filter does not skip it, and once the candidates before it have been
    gone through without a selection the next event of the run of
    [generateWithAutoPick] is the generate request for it. *)
Theorem model_without_methods_field_is_capable
        (models : list GeminiModel) (m : GeminiModel) (name : string) :
  let model := shortModelName name in
  let l := list_models version (final p) in
  let gc := generateCapable_of models in
  result l = Ok models ->
  m ∈ models ->
  model_name m = Some name ->
  model <> "" ->
  Js.prop (Some m) "supportedGenerationMethods" = None ->
  modelSupportsGenerateContent m = true /\
  model ∈ gc /\
  model ∈ candidates_of (available_of models) /\
  skipped gc model = false /\
  forall done rest : list string,
    candidates_of (available_of models) = done ++ model :: rest ->
    result (loop version gc done (final l)) = Ok None ->
    exists tail,
      trace (pick w0) =
      trace p ++ trace l ++ trace (loop version gc done (final l))
        ++ generation version model :: tail.
Proof.
  intros model l gc Hl Hin Hname Hbare Hfield.
  assert (Hcap : modelSupportsGenerateContent m = true).
  { unfold modelSupportsGenerateContent. now rewrite Hfield. }
  destruct (capable_entry_is_a_candidate models m name Hin Hname Hbare Hcap)
    as (Hmem & Hcand & Hskip).
  split; [exact Hcap|]. split; [exact Hmem|]. split; [exact Hcand|].
  split; [exact Hskip|].
  intros done rest Hsplit Hd.
  now apply (reached_candidate_is_requested models done rest model).
Qed.

(** C10 (amended). The same holds for a catalog entry with such a name
    whose [supportedGenerationMethods] field is present and is the empty
    array: an empty list is not read as a sign of incapacity. The entry
    is in [generateCapable], is one of the candidates, is not skipped,
    and is requested as soon as the candidate loop gets to it. *)
Theorem model_with_empty_methods_is_capable
        (models : list GeminiModel) (m : GeminiModel) (name : string) :
  let model := shortModelName name in
  let l := list_models version (final p) in
  let gc := generateCapable_of models in
  result l = Ok models ->
  m ∈ models ->
  model_name m = Some name ->
  model <> "" ->
  Js.prop (Some m) "supportedGenerationMethods" = Some (JArr []) ->
  modelSupportsGenerateContent m = true /\
  model ∈ gc /\
  model ∈ candidates_of (available_of models) /\
  skipped gc model = false /\
  forall done rest : list string,
    candidates_of (available_of models) = done ++ model :: rest ->
    result (loop version gc done (final l)) = Ok None ->
    exists tail,
      trace (pick w0) =
      trace p ++ trace l ++ trace (loop version gc done (final l))
        ++ generation version model :: tail.
Proof.
  intros model l gc Hl Hin Hname Hbare Hfield.
  assert (Hcap : modelSupportsGenerateContent m = true).
  { unfold modelSupportsGenerateContent. now rewrite Hfield. }
  destruct (capable_entry_is_a_candidate models m name Hin Hname Hbare Hcap)
    as (Hmem & Hcand & Hskip).
  split; [exact Hcap|]. split; [exact Hmem|]. split; [exact Hcand|].
  split; [exact Hskip|].
  intros done rest Hsplit Hd.
  now apply (reached_candidate_is_requested models done rest model).
Qed.

(** X8. When no named model of the catalog passes the capability test,
    [generateCapable] is empty and the filter is off: no candidate is
    skipped, so every candidate the loop gets to is requested, models
    that declare other methods only included. *)
Theorem filter_is_off_when_nothing_is_capable
        (models : list GeminiModel) (done rest : list string) (c : string) :
  let l := list_models version (final p) in
  let gc := generateCapable_of models in
  let d := loop version gc done (final l) in
  result l = Ok models ->
  (forall m, m ∈ models -> is_Some (model_name m) ->
             modelSupportsGenerateContent m = false) ->
  candidates_of (available_of models) = done ++ c :: rest ->
  result d = Ok None ->
  gc = ∅ /\
  skipped gc c = false /\
  exists tail,
    trace (pick w0) = trace p ++ trace l ++ trace d ++ generation version c :: tail.
Proof.
  intros l gc d Hl Hnone Hsplit Hd.
  assert (Hempty : gc = ∅).
  { apply elem_of_equiv_empty_L. intros x Hx. unfold gc, generateCapable_of in Hx.
    apply elem_of_list_to_set, list_elem_of_fmap in Hx as (m & _ & Hm).
    apply list_elem_of_filter in Hm as [Hcap Hm].
    apply andb_true_iff in Hcap as [Hname Hcap].
    unfold has_string_name in Hname. apply bool_decide_eq_true_1 in Hname.
    rewrite (Hnone m Hm Hname) in Hcap. discriminate. }
  assert (Hskip : skipped gc c = false).
  { unfold skipped. rewrite Hempty, size_empty. reflexivity. }
  split; [exact Hempty|]. split; [exact Hskip|].
  now apply (reached_candidate_is_requested models done rest c).
Qed.

End SelectionRuns.

(** ** The claims on concrete upstreams *)

Local Abbreviation demo_listing v :=
  (EvFetch (list_url v) (list_init "key") 15000).
Local Abbreviation demo_generation v model :=
  (EvFetch (generate_url v model) (generate_init Demo.stringify "key" "prompt") 30000).

(** C1, as stated, fails. The catalog offers [gemini-2.5-flash] and
    [gemini-2.0-flash]; the first answers 200 with the body [{}], which
    has no generated text, and the second would answer properly. The
    selection throws the empty-response error after the one request and
    never asks the second candidate. *)
Lemma empty_text_aborts_the_selection :
  let r := Demo.run_with (Demo.reply 200 "{}") in
  Demo.parse "{}" = inr (JObj []) /\
  text_missing_or_blank (JObj []) = true /\
  result r = Throw (Error "Gemini response is empty (v1beta/gemini-2.5-flash). raw={}") /\
  attempts (trace r) = [demo_listing V1beta; demo_generation V1beta "gemini-2.5-flash"] /\
  picked (result (Demo.run_with (Demo.reply 404 ""))) = Some (V1beta, "gemini-2.0-flash").
Proof. vm_compute. repeat split; reflexivity. Qed.

(** The first candidate answers 200 with the body [{}]: the selection
    as a whole ends with the empty-response error, right after the
    warning. *)
Lemma empty_text_is_a_failure_classified_by_message_witness :
  let e := Error "Gemini response is empty (v1beta/gemini-2.5-flash). raw={}" in
  Demo.run_with (Demo.reply 200 "{}") =
  MkRun (Throw e) tt
        [demo_listing V1beta; demo_generation V1beta "gemini-2.5-flash";
         EvWarn (warn_generate_failed (message e))].
Proof.
  intros e.
  destruct (empty_text_is_a_failure_classified_by_message
              Demo.parse Demo.stringify
              (Demo.table_fetch (Demo.upstream (Demo.reply 200 "{}")))
              "key" "prompt" tt [] [V1] V1beta eq_refl eq_refl
              Demo.catalog_models [] ["gemini-2.0-flash"] "gemini-2.5-flash"
              {| status := 200; raw := "{}" |} (JObj []))
    as [_ Hrun]; [reflexivity.. |].
  unfold Demo.run_with. rewrite Hrun. reflexivity.
Defined.

(** The other branch: an empty answer whose body contains a marker is
    taken for a mismatch, and the next candidate is asked. *)
Example empty_text_with_a_marker_continues :
  let r := Demo.run_with (Demo.reply 200 Demo.note_raw) in
  text_missing_or_blank Demo.note_json = true /\
  picked (result r) = Some (V1beta, "gemini-2.0-flash").
Proof. vm_compute. split; reflexivity. Qed.

(** C2, as stated, fails. The first candidate answers 403 with a body
    that happens to contain the first marker; the selection does not stop
    but asks the next candidate, and picks it. *)
Lemma status_403_does_not_always_abort :
  let r := Demo.run_with (Demo.reply 403 "quota project: 404") in
  status_ok 403 = false /\
  result r = Ok {| sel_version := V1beta; sel_model := "gemini-2.0-flash";
                   sel_text := "hello" |} /\
  attempts (trace r) = [demo_listing V1beta; demo_generation V1beta "gemini-2.5-flash";
                        demo_generation V1beta "gemini-2.0-flash"].
Proof. vm_compute. repeat split; reflexivity. Qed.

(** A 401 whose message has no marker ends the whole selection at once:
    neither the second candidate nor the secondary version is asked. *)
Lemma failure_is_classified_by_message_witness :
  let e := Error "Gemini generateContent failed (v1beta/gemini-2.5-flash): 401 unauthorized" in
  Demo.run_with (Demo.reply 401 "unauthorized") =
  MkRun (Throw e) tt
        [demo_listing V1beta; demo_generation V1beta "gemini-2.5-flash";
         EvWarn (warn_generate_failed (message e))].
Proof.
  intros e.
  destruct (failure_is_classified_by_message
              Demo.parse Demo.stringify
              (Demo.table_fetch (Demo.upstream (Demo.reply 401 "unauthorized")))
              "key" "prompt" tt [] [V1] V1beta eq_refl eq_refl
              Demo.catalog_models [] ["gemini-2.0-flash"] "gemini-2.5-flash" e)
    as [Hrun _]; [reflexivity.. |].
  unfold Demo.run_with. rewrite Hrun. reflexivity.
Defined.

(** A 404 goes on to the next candidate. *)
Example status_404_continues :
  let r := Demo.run_with (Demo.reply 404 "") in
  attempts (trace r) = [demo_listing V1beta; demo_generation V1beta "gemini-2.5-flash";
                        demo_generation V1beta "gemini-2.0-flash"] /\
  picked (result r) = Some (V1beta, "gemini-2.0-flash").
Proof. vm_compute. split; reflexivity. Qed.

(** The listing of [v1beta] answers 503: it is not retried, and the
    selection moves on to [v1], where it succeeds. *)
Lemma listing_failure_is_not_fatal_witness :
  let script := [Demo.reply 503 "unavailable"; Demo.reply 200 Demo.catalog_raw;
                 Demo.reply 200 Demo.answer_raw] in
  let r := generateWithAutoPick Demo.parse Demo.stringify Demo.scripted_fetch
                                "key" "prompt" script in
  listing_failed (Demo.reply 503 "unavailable") = true /\
  take 3 (trace r) =
    [demo_listing V1beta;
     EvWarn "[WARN] listModels failed (v1beta): ListModels failed (v1beta): 503 unavailable";
     demo_listing V1] /\
  result r = Ok {| sel_version := V1; sel_model := "gemini-2.5-flash";
                   sel_text := "hello" |}.
Proof.
  intros script r. split; [reflexivity|].
  destruct (listing_failure_is_not_fatal Demo.parse Demo.stringify Demo.scripted_fetch
              "key" "prompt" script [] [V1] V1beta eq_refl eq_refl)
    as (e & He & Hrun & _); [reflexivity|].
  injection He as <-. subst r. rewrite Hrun. split; reflexivity.
Defined.

(** Both listings are refused (401, then 403): the caller gets the
    exhaustion error, not the authentication failure. *)
Lemma failed_listings_surface_as_exhaustion_witness :
  let script := [Demo.reply 401 "unauthorized"; Demo.reply 403 "forbidden"] in
  generateWithAutoPick Demo.parse Demo.stringify Demo.scripted_fetch "key" "prompt" script =
  MkRun (Throw (Error "No working Gemini model found (checked v1beta/v1).")) []
        [demo_listing V1beta;
         EvWarn "[WARN] listModels failed (v1beta): ListModels failed (v1beta): 401 unauthorized";
         demo_listing V1;
         EvWarn "[WARN] listModels failed (v1): ListModels failed (v1): 403 forbidden"].
Proof.
  intros script.
  destruct (failed_listings_surface_as_exhaustion Demo.parse Demo.stringify
              Demo.scripted_fetch "key" "prompt" script
              (Error "ListModels failed (v1beta): 401 unauthorized")
              (Error "ListModels failed (v1): 403 forbidden"))
    as (Hrun & _ & _); [reflexivity | reflexivity |].
  rewrite Hrun. reflexivity.
Defined.

(** C6, as stated, fails in two ways. First, for entries that cannot
    be named in a request: neither entry of [unnamed_models] has a
    capability list, and both pass the capability test; the one without
    a name is in neither set, and the one named by the bare prefix has
    the empty bare name, which is dropped from [available]. There is no
    candidate: the selection sends the two listing requests and nothing
    else. Second, an entry with a proper name is not attempted either
    when a candidate before it answers: [gemini-2.0-flash] has no
    capability list, but [gemini-2.5-flash] comes first and is picked. *)
Lemma model_without_methods_field_is_not_always_attempted :
  let fetch := Demo.table_fetch (Demo.listed_on_both Demo.unnamed_raw) in
  let r := Demo.run_with (Demo.reply 200 Demo.answer_raw) in
  (Demo.unnamed_models = [JObj []; JObj [("name", JStr "models/")]] /\
   Js.prop (Some (JObj [])) "supportedGenerationMethods" = None /\
   Js.prop (Some (JObj [("name", JStr "models/")])) "supportedGenerationMethods" = None /\
   modelSupportsGenerateContent (JObj []) = true /\
   modelSupportsGenerateContent (JObj [("name", JStr "models/")]) = true /\
   result (listModels Demo.parse_catalogs fetch V1beta "key" tt) = Ok Demo.unnamed_models /\
   elements (generateCapable_of Demo.unnamed_models) = [""] /\
   candidates_of (available_of Demo.unnamed_models) = [] /\
   generateWithAutoPick Demo.parse_catalogs Demo.stringify fetch "key" "prompt" tt =
   MkRun (Throw exhausted) tt [demo_listing V1beta; demo_listing V1]) /\
  (Demo.catalog_models = [JObj [("name", JStr "models/gemini-2.0-flash")];
                          JObj [("name", JStr "models/gemini-2.5-flash")]] /\
   Js.prop (Some (JObj [("name", JStr "models/gemini-2.0-flash")]))
           "supportedGenerationMethods" = None /\
   candidates_of (available_of Demo.catalog_models) =
     ["gemini-2.5-flash"; "gemini-2.0-flash"] /\
   attempts (trace r) = [demo_listing V1beta; demo_generation V1beta "gemini-2.5-flash"] /\
   picked (result r) = Some (V1beta, "gemini-2.5-flash")).
Proof. vm_compute. repeat split; reflexivity. Qed.

(** [text-bison] has no capability list: it is capable and a candidate,
    while [embedding-001], which lists another method only, is skipped.
    The two preferred models answer 404, and the request for
    [text-bison] follows. *)
Lemma model_without_methods_field_is_capable_witness :
  let fetch := Demo.table_fetch Demo.mixed_listed in
  let generateCapable := generateCapable_of Demo.mixed_models in
  "text-bison" ∈ generateCapable /\
  skipped generateCapable "text-bison" = false /\
  skipped generateCapable "embedding-001" = true /\
  demo_generation V1beta "text-bison" ∈
    trace (generateWithAutoPick Demo.parse_catalogs Demo.stringify fetch "key" "prompt" tt).
Proof.
  intros fetch generateCapable.
  destruct (model_without_methods_field_is_capable
              Demo.parse_catalogs Demo.stringify fetch "key" "prompt" tt
              [] [V1] V1beta eq_refl eq_refl
              Demo.mixed_models (JObj [("name", JStr "models/text-bison")])
              "models/text-bison")
    as (_ & Hmem & _ & Hskip & Hreq);
    [reflexivity | left | reflexivity | discriminate | reflexivity |].
  split; [exact Hmem|]. split; [exact Hskip|]. split; [reflexivity|].
  destruct (Hreq ["gemini-2.0-flash"; "gemini-2.0-flash-lite"] ["embedding-001"])
    as [tail ->]; [reflexivity | reflexivity |].
  do 3 (apply elem_of_app; right). left.
Defined.

(** C10, as stated, fails in the same way: with an empty capability
    list too, an entry without a name is not in [generateCapable], and
    one named by the bare prefix is never a candidate. *)
Lemma model_with_empty_methods_is_not_always_attempted :
  let fetch := Demo.table_fetch (Demo.listed_on_both Demo.unnamed_empty_raw) in
  Demo.unnamed_empty_models =
    [JObj [("supportedGenerationMethods", JArr [])];
     JObj [("name", JStr "models/"); ("supportedGenerationMethods", JArr [])]] /\
  result (listModels Demo.parse_catalogs fetch V1beta "key" tt)
    = Ok Demo.unnamed_empty_models /\
  elements (generateCapable_of Demo.unnamed_empty_models) = [""] /\
  candidates_of (available_of Demo.unnamed_empty_models) = [] /\
  generateWithAutoPick Demo.parse_catalogs Demo.stringify fetch "key" "prompt" tt =
  MkRun (Throw exhausted) tt [demo_listing V1beta; demo_listing V1].
Proof. vm_compute. repeat split; reflexivity. Qed.

(** [gemini-2.0-flash-lite] has an empty capability list: capable too,
    and requested once [gemini-2.0-flash] has answered 404. *)
Lemma model_with_empty_methods_is_capable_witness :
  let fetch := Demo.table_fetch Demo.mixed_listed in
  let generateCapable := generateCapable_of Demo.mixed_models in
  "gemini-2.0-flash-lite" ∈ generateCapable /\
  skipped generateCapable "gemini-2.0-flash-lite" = false /\
  demo_generation V1beta "gemini-2.0-flash-lite" ∈
    trace (generateWithAutoPick Demo.parse_catalogs Demo.stringify fetch "key" "prompt" tt).
Proof.
  intros fetch generateCapable.
  destruct (model_with_empty_methods_is_capable
              Demo.parse_catalogs Demo.stringify fetch "key" "prompt" tt
              [] [V1] V1beta eq_refl eq_refl
              Demo.mixed_models
              (JObj [("name", JStr "models/gemini-2.0-flash-lite");
                     ("supportedGenerationMethods", JArr [])])
              "models/gemini-2.0-flash-lite")
    as (_ & Hmem & _ & Hskip & Hreq);
    [reflexivity | right; left | reflexivity | discriminate | reflexivity |].
  split; [exact Hmem|]. split; [exact Hskip|].
  destruct (Hreq ["gemini-2.0-flash"] ["text-bison"; "embedding-001"])
    as [tail ->]; [reflexivity | reflexivity |].
  do 3 (apply elem_of_app; right). left.
Defined.

(** The retry budget at work: four retryable answers to a generation
    make four requests, and a retryable answer to a listing one. *)
Example budget_on_a_failing_upstream :
  let script := [Demo.reply 503 ""; Demo.reply 503 ""; Demo.reply 503 "";
                 Demo.reply 503 "down"; Demo.reply 200 Demo.answer_raw] in
  let g := generateContent Demo.parse Demo.stringify Demo.scripted_fetch V1beta
                           "gemini-2.5-flash" "key" "prompt" script in
  length (attempts (trace g)) = 4%nat /\
  waits_before_attempts [] (trace g) = [[]; [800]; [1600]; [3200]] /\
  trace (listModels Demo.parse Demo.scripted_fetch V1beta "key" script) =
    [demo_listing V1beta].
Proof. vm_compute. repeat split; reflexivity. Qed.

(** ** More on the retrier *)

Section RetrierMore.

Context {World : Type}.
Variable fetch : string -> RequestInit -> Z -> World -> Outcome * World.
Variables (url : string) (init : RequestInit) (timeoutMs : Z) (retries : nat).

Local Abbreviation request := (EvFetch url init timeoutMs).

(** The loop ends with the outcome of the attempt it stops at. *)
Lemma retry_loop_result (n : nat) :
  forall (i : nat) (lastErr : option JsError) (w : World),
    (i + n = retries)%nat ->
    exists o,
      outcomes fetch url init timeoutMs (S n) w
        !! leading_retryable (outcomes fetch url init timeoutMs n w) = Some o /\
      result (retry_loop fetch url init timeoutMs retries (S n) i lastErr w) =
      outcome_result o.
Proof.
  induction n as [|n IH]; intros i lastErr w Hi;
    rewrite retry_loop_S, bind_run, retry_body_run; cbn zeta.
  - rewrite (outcomes_S fetch url init timeoutMs 0 w).
    replace (i <? retries)%nat with false by (symmetry; apply Nat.ltb_ge; lia).
    exists (fetch url init timeoutMs w).1. split; [reflexivity|].
    destruct (fetch url init timeoutMs w).1 as [resp|e]; [|reflexivity].
    rewrite andb_false_r. now destruct (status_ok (status resp)).
  - replace (i <? retries)%nat with true by (symmetry; apply Nat.ltb_lt; lia).
    rewrite (outcomes_S fetch url init timeoutMs (S n) w),
            (outcomes_S fetch url init timeoutMs n w).
    cbn [leading_retryable].
    destruct (IH (S i) lastErr (fetch url init timeoutMs w).2 ltac:(lia))
      as (o1 & Ho1 & Hr1).
    destruct (fetch url init timeoutMs w).1 as [resp|e] eqn:Hfirst; cbn [retryable].
    + rewrite andb_true_r. destruct (isRetryableStatus (status resp)) eqn:Hr.
      * rewrite (retryable_not_ok _ Hr). cbn -[retry_loop outcomes].
        exists o1. split; [exact Ho1 | exact Hr1].
      * exists (Responded resp). split; [reflexivity|].
        now destruct (status_ok (status resp)).
    + cbn -[retry_loop outcomes].
      destruct (IH (S i) (Some e) (fetch url init timeoutMs w).2 ltac:(lia))
        as (o2 & Ho2 & Hr2).
      exists o2. split; [exact Ho2 | exact Hr2].
Qed.

(** The time slept by the loop entered at index [i]. *)
Lemma retry_loop_sleep (n : nat) :
  forall (i : nat) (lastErr : option JsError) (w : World),
    (i + n = retries)%nat ->
    total_sleep (trace (retry_loop fetch url init timeoutMs retries (S n) i lastErr w)) =
    backoff i *
    (2 ^ Z.of_nat (leading_retryable (outcomes fetch url init timeoutMs n w)) - 1).
Proof.
  induction n as [|n IH]; intros i lastErr w Hi;
    rewrite retry_loop_S, bind_run, retry_body_run; cbn zeta.
  - replace (i <? retries)%nat with false by (symmetry; apply Nat.ltb_ge; lia).
    cbn [outcomes leading_retryable]. rewrite Z.mul_0_r.
    destruct (fetch url init timeoutMs w).1 as [resp|e]; [|reflexivity].
    rewrite andb_false_r. now destruct (status_ok (status resp)).
  - replace (i <? retries)%nat with true by (symmetry; apply Nat.ltb_lt; lia).
    rewrite outcomes_S. cbn [leading_retryable].
    assert (Hstep : forall k : nat,
               backoff i + backoff (S i) * (2 ^ Z.of_nat k - 1)
               = backoff i * (2 ^ Z.of_nat (S k) - 1)).
    { intros k. unfold backoff.
      rewrite !Nat2Z.inj_succ, !Z.pow_succ_r by lia. ring. }
    destruct (fetch url init timeoutMs w).1 as [resp|e]; cbn [retryable].
    + rewrite andb_true_r. destruct (isRetryableStatus (status resp)) eqn:Hr.
      * rewrite (retryable_not_ok _ Hr). cbn -[retry_loop backoff Z.pow Z.of_nat].
        rewrite IH by lia. apply Hstep.
      * cbn [Z.of_nat Z.pow Z.pow_pos]. rewrite Z.mul_0_r.
        now destruct (status_ok (status resp)).
    + cbn -[retry_loop backoff Z.pow Z.of_nat]. rewrite IH by lia. apply Hstep.
Qed.

End RetrierMore.

(** X1. [postJsonWithRetry] always ends with the outcome of an attempt
    it really made, the last one: the response returned or the error
    rethrown. Attempt number [n], where [n] counts the retryable outcomes
    met while the budget lasted, is that last one, so the fallback throw
    after the loop is never what the caller gets. *)
Theorem retrier_ends_with_its_last_outcome
        {World : Type} (fetch : string -> RequestInit -> Z -> World -> Outcome * World)
        (url : string) (init : RequestInit) (timeoutMs : Z) (retries : nat) (w : World) :
  let r := postJsonWithRetry fetch url init timeoutMs retries w in
  let n := leading_retryable (outcomes fetch url init timeoutMs retries w) in
  exists o,
    outcomes fetch url init timeoutMs (S retries) w !! n = Some o /\
    result r = outcome_result o /\
    length (attempts (trace r)) = S n /\
    (n <= retries)%nat.
Proof.
  intros r n.
  destruct (retry_loop_result fetch url init timeoutMs retries retries 0 None w eq_refl)
    as (o & Ho & Hr).
  exists o. split; [exact Ho|]. split; [exact Hr|]. split.
  - subst r. unfold postJsonWithRetry.
    rewrite (retry_loop_attempts fetch url init timeoutMs retries retries 0 None w eq_refl).
    apply length_replicate.
  - subst n.
    pose proof (leading_retryable_le (outcomes fetch url init timeoutMs retries w)) as H.
    now rewrite outcomes_length in H.
Qed.

(** X2. The time [postJsonWithRetry] sleeps is [800 * (2^n - 1)] ms for
    [n] retries actually made, hence at most [800 * (2^retries - 1)]; a
    generation, with its 3 retries, never sleeps more than 5600 ms. *)
Theorem backoff_time_is_bounded
        {World : Type} (JSON_parse : string -> string + JSON)
        (JSON_stringify : JSON -> string)
        (fetch : string -> RequestInit -> Z -> World -> Outcome * World)
        (url : string) (init : RequestInit) (timeoutMs : Z) (retries : nat) (w : World)
        (version : GeminiApiVersion) (model apiKey prompt : string) :
  let r := postJsonWithRetry fetch url init timeoutMs retries w in
  let n := leading_retryable (outcomes fetch url init timeoutMs retries w) in
  let g := generateContent JSON_parse JSON_stringify fetch version model apiKey prompt w in
  total_sleep (trace r) = 800 * (2 ^ Z.of_nat n - 1) /\
  0 <= total_sleep (trace r) <= 800 * (2 ^ Z.of_nat retries - 1) /\
  0 <= total_sleep (trace g) <= 5600.
Proof.
  intros r n g.
  assert (Hbound : forall (u : string) (ini : RequestInit) (t : Z) (k : nat),
             let m := leading_retryable (outcomes fetch u ini t k w) in
             total_sleep (trace (postJsonWithRetry fetch u ini t k w))
             = 800 * (2 ^ Z.of_nat m - 1) /\
             0 <= 800 * (2 ^ Z.of_nat m - 1) <= 800 * (2 ^ Z.of_nat k - 1)).
  { intros u ini t k m. split.
    - unfold postJsonWithRetry.
      rewrite (retry_loop_sleep fetch u ini t k k 0 None w eq_refl).
      fold m. unfold backoff. cbn [Z.of_nat]. rewrite Z.pow_0_r. lia.
    - assert (Hm : (m <= k)%nat).
      { subst m. pose proof (leading_retryable_le (outcomes fetch u ini t k w)) as H.
        now rewrite outcomes_length in H. }
      assert (1 <= 2 ^ Z.of_nat m) by (apply Z.pow_le_mono_r with (b := 0); lia).
      assert (2 ^ Z.of_nat m <= 2 ^ Z.of_nat k) by (apply Z.pow_le_mono_r; lia).
      lia. }
  destruct (Hbound url init timeoutMs retries) as [Heq Hle].
  split; [exact Heq|]. split; [subst r; rewrite Heq; exact Hle|].
  subst g. rewrite generateContent_run. cbn [trace].
  destruct (Hbound (generate_url version model)
                   (generate_init JSON_stringify apiKey prompt) 30000 3%nat) as [Heq3 Hle3].
  rewrite Heq3. change (800 * (2 ^ Z.of_nat 3 - 1)) with 5600 in Hle3. exact Hle3.
Qed.

(** X3. With a budget of 0 retries the retrier is the bare transport:
    one request, and its outcome whatever it is. *)
Theorem retrier_without_budget_is_the_transport
        {World : Type} (fetch : string -> RequestInit -> Z -> World -> Outcome * World)
        (url : string) (init : RequestInit) (timeoutMs : Z) (w : World) :
  postJsonWithRetry fetch url init timeoutMs 0 w =
  fetchWithTimeout fetch url init timeoutMs w.
Proof.
  unfold postJsonWithRetry.
  rewrite retry_loop_S, bind_run, retry_body_run, fetchWithTimeout_run. cbn zeta.
  destruct (fetch url init timeoutMs w).1 as [resp|e]; [|reflexivity].
  rewrite andb_false_r. now destruct (status_ok (status resp)).
Qed.

(** ** More on the selector *)

Section SelectorMore.

Context {World : Type}.
Variable JSON_parse : string -> string + JSON.
Variable JSON_stringify : JSON -> string.
Variable fetch : string -> RequestInit -> Z -> World -> Outcome * World.
Variables (apiKey prompt : string).

Local Abbreviation listing v := (EvFetch (list_url v) (list_init apiKey) 15000).
Local Abbreviation generation v model :=
  (EvFetch (generate_url v model) (generate_init JSON_stringify apiKey prompt) 30000).
Local Abbreviation generate v model :=
  (generateContent JSON_parse JSON_stringify fetch v model apiKey prompt).
Local Abbreviation body v gc :=
  (candidate_body JSON_parse JSON_stringify fetch v apiKey prompt gc).
Local Abbreviation loop v gc :=
  (candidate_loop JSON_parse JSON_stringify fetch v apiKey prompt gc).
Local Abbreviation vbody :=
  (version_body JSON_parse JSON_stringify fetch apiKey prompt).
Local Abbreviation vloop :=
  (version_loop JSON_parse JSON_stringify fetch apiKey prompt).
Local Abbreviation pick :=
  (generateWithAutoPick JSON_parse JSON_stringify fetch apiKey prompt).

(** A retry loop that returns a response stops right after a request. *)
Lemma retry_loop_ok_last (url : string) (init : RequestInit) (timeoutMs : Z)
      (retries remaining : nat) :
  forall (i : nat) (lastErr : option JsError) (w : World) (resp : Response),
    result (retry_loop fetch url init timeoutMs retries remaining i lastErr w) = Ok resp ->
    last (trace (retry_loop fetch url init timeoutMs retries remaining i lastErr w)) =
    Some (EvFetch url init timeoutMs).
Proof.
  induction remaining as [|remaining IH]; intros i lastErr w resp; [discriminate|].
  rewrite retry_loop_S, bind_run, retry_body_run. cbn zeta.
  destruct (fetch url init timeoutMs w).1 as [r|e].
  - destruct (status_ok (status r)); [reflexivity|].
    destruct (isRetryableStatus (status r) && (i <? retries)%nat); [|reflexivity].
    cbn [result final trace]. intros Hres.
    rewrite last_app, (IH _ _ _ _ Hres). reflexivity.
  - destruct (i <? retries)%nat; [|discriminate].
    cbn [result final trace]. intros Hres.
    rewrite last_app, (IH _ _ _ _ Hres). reflexivity.
Qed.

Lemma generate_ok_last (v : GeminiApiVersion) (model : string) (w : World) (text : string) :
  result (generate v model w) = Ok text ->
  last (trace (generate v model w)) = Some (generation v model).
Proof.
  rewrite generateContent_run. cbn [result trace]. intros Hres.
  destruct (result (postJsonWithRetry fetch _ _ 30000 3 w)) as [resp|e] eqn:Hpost;
    [|discriminate].
  unfold postJsonWithRetry in *. now apply retry_loop_ok_last with (resp := resp).
Qed.

(** What a candidate loop that picks a model has done. *)
Lemma candidate_loop_picked (v : GeminiApiVersion) (gc : gset string)
      (cs : list string) :
  forall (w : World) (sel : Selection),
    result (loop v gc cs w) = Ok (Some sel) ->
    sel_version sel = v /\
    sel_model sel ∈ cs /\
    skipped gc (sel_model sel) = false /\
    JsString.trim_is_empty (sel_text sel) = false /\
    last (trace (loop v gc cs w)) = Some (generation v (sel_model sel)).
Proof.
  induction cs as [|m cs IH]; intros w sel; [discriminate|].
  rewrite candidate_loop_cons, bind_run, candidate_body_run.
  destruct (skipped gc m) eqn:Hskip; cbn [result final trace].
  - intros Hres. destruct (IH _ _ Hres) as (Hv & Hin & Hs & Ht & Hl).
    repeat split; try assumption. now right.
  - cbn zeta. destruct (result (generate v m w)) as [text|e] eqn:Hg;
      cbn [result final trace].
    + intros [= <-]. cbn [sel_version sel_model sel_text].
      repeat split; try assumption.
      * left.
      * now apply generateContent_text_not_blank in Hg.
      * rewrite app_nil_r. now apply generate_ok_last with (text := text).
    + destruct (isGeminiNotFoundOrUnsupported (message e)); cbn [result final trace];
        [|discriminate].
      intros Hres. destruct (IH _ _ Hres) as (Hv & Hin & Hs & Ht & Hl).
      repeat split; try assumption; [now right|].
      now rewrite last_app, Hl.
Qed.

(** What a candidate loop that throws has done. *)
Lemma candidate_loop_thrown (v : GeminiApiVersion) (gc : gset string)
      (cs : list string) :
  forall (w : World) (e : JsError),
    result (loop v gc cs w) = Throw e ->
    isGeminiNotFoundOrUnsupported (message e) = false /\
    last (trace (loop v gc cs w)) = Some (EvWarn (warn_generate_failed (message e))).
Proof.
  induction cs as [|m cs IH]; intros w e; [discriminate|].
  rewrite candidate_loop_cons, bind_run, candidate_body_run.
  destruct (skipped gc m) eqn:Hskip; cbn [result final trace].
  - intros Hres. now apply IH.
  - cbn zeta. destruct (result (generate v m w)) as [text|e'] eqn:Hg;
      cbn [result final trace]; [discriminate|].
    destruct (isGeminiNotFoundOrUnsupported (message e')) eqn:Hnf;
      cbn [result final trace].
    + intros Hres. destruct (IH _ _ Hres) as [He Hl]. split; [exact He|].
      now rewrite last_app, Hl.
    + intros [= <-]. split; [exact Hnf|]. now rewrite last_app.
Qed.

(** Every request of a candidate loop is the generation request of a
    candidate that the filter lets through. *)
Lemma candidate_loop_requests (v : GeminiApiVersion) (gc : gset string)
      (cs : list string) :
  forall (w : World) (url : string) (init : RequestInit) (timeoutMs : Z),
    EvFetch url init timeoutMs ∈ trace (loop v gc cs w) ->
    exists c, c ∈ cs /\ skipped gc c = false /\ EvFetch url init timeoutMs = generation v c.
Proof.
  induction cs as [|m cs IH]; intros w url init timeoutMs.
  - cbn. now intros ?%elem_of_nil.
  - rewrite candidate_loop_cons, bind_run.
    assert (Hbody : EvFetch url init timeoutMs ∈ trace (body v gc m w) ->
                    exists c, c ∈ m :: cs /\ skipped gc c = false /\
                              EvFetch url init timeoutMs = generation v c).
    { intros Hin. exists m. split; [left|]. split.
      - destruct (skipped gc m) eqn:Hskip; [|reflexivity].
        rewrite candidate_body_run, Hskip in Hin. now apply elem_of_nil in Hin.
      - now apply (body_fetches JSON_parse JSON_stringify fetch v apiKey prompt gc m w). }
    destruct (result (body v gc m w)) as [[[]|sel]|e]; cbn [trace].
    + intros [Hin|Hin]%elem_of_app; [now apply Hbody|].
      destruct (IH _ _ _ _ Hin) as (c & Hc & Hs & Heq).
      exists c. split; [now right | now split].
    + cbn. rewrite app_nil_r. exact Hbody.
    + exact Hbody.
Qed.

(** The requests of one version: its listing, then generations by
    candidates of its catalog. *)
Lemma version_body_requests (v : GeminiApiVersion) (w : World)
      (url : string) (init : RequestInit) (timeoutMs : Z) :
  EvFetch url init timeoutMs ∈ trace (vbody v w) ->
  EvFetch url init timeoutMs = listing v \/
  exists c, c <> "" /\ EvFetch url init timeoutMs = generation v c.
Proof.
  rewrite version_body_run. cbn zeta. rewrite listModels_run. cbn [result final trace].
  destruct (listing_result JSON_parse v _) as [models|e]; cbn [trace].
  - intros [Hin|Hin]%elem_of_cons; [now left|]. right.
    apply candidate_loop_requests in Hin as (c & Hc & _ & Heq).
    exists c. split; [|exact Heq].
    apply candidates_of_elem, available_of_elem in Hc. tauto.
  - intros [Hin|Hin]%elem_of_cons; [now left|].
    apply list_elem_of_singleton in Hin. discriminate.
Qed.

Lemma version_body_picked (v : GeminiApiVersion) (w : World) (sel : Selection) :
  result (vbody v w) = Ok (Some sel) ->
  sel_version sel = v /\
  sel_model sel <> "" /\
  JsString.trim_is_empty (sel_text sel) = false /\
  last (trace (vbody v w)) = Some (generation v (sel_model sel)).
Proof.
  rewrite version_body_run. cbn zeta.
  destruct (result (listModels JSON_parse fetch v apiKey w)) as [models|e];
    cbn [result trace]; [|discriminate].
  intros Hres. apply candidate_loop_picked in Hres as (Hv & Hin & _ & Ht & Hl).
  repeat split; try assumption.
  - apply candidates_of_elem, available_of_elem in Hin. tauto.
  - now rewrite last_app, Hl.
Qed.

Lemma version_body_thrown (v : GeminiApiVersion) (w : World) (e : JsError) :
  result (vbody v w) = Throw e ->
  isGeminiNotFoundOrUnsupported (message e) = false /\
  last (trace (vbody v w)) = Some (EvWarn (warn_generate_failed (message e))).
Proof.
  rewrite version_body_run. cbn zeta.
  destruct (result (listModels JSON_parse fetch v apiKey w)) as [models|e'];
    cbn [result trace]; [|discriminate].
  intros Hres. apply candidate_loop_thrown in Hres as [He Hl].
  split; [exact He|]. now rewrite last_app, Hl.
Qed.

Lemma version_loop_requests (versions : list GeminiApiVersion) :
  forall (w : World) (url : string) (init : RequestInit) (timeoutMs : Z),
    EvFetch url init timeoutMs ∈ trace (vloop versions w) ->
    exists v, v ∈ versions /\
      (EvFetch url init timeoutMs = listing v \/
       exists c, c <> "" /\ EvFetch url init timeoutMs = generation v c).
Proof.
  induction versions as [|v vs IH]; intros w url init timeoutMs.
  - cbn. now intros ?%elem_of_nil.
  - rewrite version_loop_cons, bind_run.
    assert (Hhere : EvFetch url init timeoutMs ∈ trace (vbody v w) ->
                    exists v', v' ∈ v :: vs /\
                      (EvFetch url init timeoutMs = listing v' \/
                       exists c, c <> "" /\ EvFetch url init timeoutMs = generation v' c)).
    { intros Hin. exists v. split; [left | now apply (version_body_requests v w)]. }
    destruct (result (vbody v w)) as [[sel|]|e]; cbn [trace].
    + cbn. rewrite app_nil_r. exact Hhere.
    + intros [Hin|Hin]%elem_of_app; [now apply Hhere|].
      destruct (IH _ _ _ _ Hin) as (v' & Hv' & Hreq).
      exists v'. split; [now right | exact Hreq].
    + exact Hhere.
Qed.

Lemma version_loop_picked (versions : list GeminiApiVersion) :
  forall (w : World) (sel : Selection),
    result (vloop versions w) = Ok (Some sel) ->
    sel_version sel ∈ versions /\
    sel_model sel <> "" /\
    JsString.trim_is_empty (sel_text sel) = false /\
    last (trace (vloop versions w)) =
      Some (generation (sel_version sel) (sel_model sel)).
Proof.
  induction versions as [|v vs IH]; intros w sel; [discriminate|].
  rewrite version_loop_cons, bind_run.
  destruct (result (vbody v w)) as [[sel'|]|e] eqn:Hb; cbn [result trace];
    [| |discriminate].
  - intros [= <-]. apply version_body_picked in Hb as (Hv & Hm & Ht & Hl).
    cbn. rewrite app_nil_r, Hv. repeat split; try assumption. left.
  - intros Hres. destruct (IH _ _ Hres) as (Hv & Hm & Ht & Hl).
    repeat split; try assumption; [now right|].
    now rewrite last_app, Hl.
Qed.

Lemma version_loop_thrown (versions : list GeminiApiVersion) :
  forall (w : World) (e : JsError),
    result (vloop versions w) = Throw e ->
    isGeminiNotFoundOrUnsupported (message e) = false /\
    last (trace (vloop versions w)) = Some (EvWarn (warn_generate_failed (message e))).
Proof.
  induction versions as [|v vs IH]; intros w e; [discriminate|].
  rewrite version_loop_cons, bind_run.
  destruct (result (vbody v w)) as [[sel'|]|e'] eqn:Hb; cbn [result trace];
    [discriminate| |].
  - intros Hres. destruct (IH _ _ Hres) as [He Hl]. split; [exact He|].
    now rewrite last_app, Hl.
  - intros [= <-]. now apply version_body_thrown.
Qed.

(** X4. Every HTTP request the selection sends is either the catalog
    listing of a version (GET, key in the header, 15000 ms) or a
    generation by a model with a non-empty name (POST, key in the header,
    prompt in the body, 30000 ms): it sends nothing else. *)
Theorem selection_sends_only_listings_and_generations
        (w : World) (url : string) (init : RequestInit) (timeoutMs : Z) :
  EvFetch url init timeoutMs ∈ trace (pick w) ->
  selection_request JSON_stringify apiKey prompt (EvFetch url init timeoutMs).
Proof.
  unfold generateWithAutoPick. rewrite bind_run. intros Hin.
  assert (Hin' : EvFetch url init timeoutMs ∈ trace (vloop [V1beta; V1] w)).
  { destruct (result (vloop [V1beta; V1] w)) as [[sel|]|e]; cbn [trace] in Hin.
    - cbn in Hin. now rewrite app_nil_r in Hin.
    - cbn in Hin. now rewrite app_nil_r in Hin.
    - exact Hin. }
  apply version_loop_requests in Hin' as (v & _ & [Heq | (c & Hc & Heq)]).
  - left. now exists v.
  - right. now exists v, c.
Qed.

(** X5. When the selection succeeds, the text it hands back is not
    blank, the picked model has a non-empty name, and the last thing it
    did was the request to that model on that version: nothing is tried
    after a success. *)
Theorem successful_selection_is_a_real_answer (w : World) (sel : Selection) :
  result (pick w) = Ok sel ->
  JsString.trim_is_empty (sel_text sel) = false /\
  sel_model sel <> "" /\
  last (trace (pick w)) = Some (generation (sel_version sel) (sel_model sel)).
Proof.
  unfold generateWithAutoPick. rewrite bind_run.
  destruct (result (vloop [V1beta; V1] w)) as [[sel'|]|e] eqn:Hloop;
    cbn [result trace]; [| discriminate | discriminate].
  intros [= <-]. apply version_loop_picked in Hloop as (_ & Hm & Ht & Hl).
  cbn. rewrite app_nil_r. now repeat split.
Qed.

(** X6. When the selection throws, the error is either the fixed
    exhaustion error or the error of a generation that was not classified
    as a mismatch, logged as the last event; in both cases its message
    contains none of the mismatch markers. A listing error is never what
    the caller gets. *)
Theorem selection_throws_exhaustion_or_a_fatal_generation_error
        (w : World) (e : JsError) :
  result (pick w) = Throw e ->
  isGeminiNotFoundOrUnsupported (message e) = false /\
  (e = exhausted \/
   last (trace (pick w)) = Some (EvWarn (warn_generate_failed (message e)))).
Proof.
  unfold generateWithAutoPick. rewrite bind_run.
  destruct (result (vloop [V1beta; V1] w)) as [[sel'|]|e'] eqn:Hloop;
    cbn [result trace]; [discriminate | |].
  - intros [= <-]. split; [reflexivity | now left].
  - intros [= <-]. apply version_loop_thrown in Hloop as [He Hl].
    split; [exact He | now right].
Qed.

(** X7. When the selection succeeds on the primary version, the
    secondary version was never contacted: every request of the run is
    the listing of [v1beta] or a generation on [v1beta]. *)
Theorem primary_success_never_contacts_secondary
        (w : World) (sel : Selection) (url : string) (init : RequestInit) (timeoutMs : Z) :
  result (pick w) = Ok sel ->
  sel_version sel = V1beta ->
  EvFetch url init timeoutMs ∈ trace (pick w) ->
  (EvFetch url init timeoutMs = listing V1beta \/
   exists c, EvFetch url init timeoutMs = generation V1beta c) /\
  url <> list_url V1.
Proof.
  intros Hres Hv Hin.
  assert (Hloop : result (vloop [V1beta; V1] w) = Ok (Some sel) /\
                  EvFetch url init timeoutMs ∈ trace (vloop [V1beta; V1] w)).
  { unfold generateWithAutoPick in Hres, Hin. rewrite bind_run in Hres, Hin.
    destruct (result (vloop [V1beta; V1] w)) as [[sel'|]|e];
      cbn [result trace] in Hres, Hin; [| discriminate | discriminate].
    injection Hres as <-. split; [reflexivity|].
    cbn in Hin. rewrite app_nil_r in Hin. exact Hin. }
  clear Hres Hin. destruct Hloop as [Hloop Hin].
  rewrite version_loop_cons, bind_run in Hloop, Hin.
  destruct (result (vbody V1beta w)) as [[sel1|]|e1] eqn:Hb;
    cbn [result trace] in Hloop, Hin; [| |discriminate].
  - cbn in Hin. rewrite app_nil_r in Hin.
    apply version_body_requests in Hin.
    assert (Hshape : EvFetch url init timeoutMs = listing V1beta \/
                     exists c, EvFetch url init timeoutMs = generation V1beta c).
    { destruct Hin as [Heq | (c & _ & Heq)]; [now left | right; now exists c]. }
    split; [exact Hshape|].
    destruct Hshape as [Heq | (c & Heq)]; injection Heq as -> _ _.
    + discriminate.
    + unfold generate_url, list_url. intros Heq.
      apply String.app_inj in Heq. discriminate.
  - apply version_loop_picked in Hloop as (Hmem & _).
    apply list_elem_of_singleton in Hmem. congruence.
Qed.

End SelectorMore.

(** ** Edge cases of the selector *)

Lemma prefix_inv (m s : string) :
  String.prefix m s = true -> exists b, s = m +:+ b.
Proof.
  revert s. induction m as [|c m IH]; intros s H.
  - now exists s.
  - destruct s as [|c' s]; [discriminate|]. cbn in H.
    destruct (ascii_dec c c') as [<-|]; [|discriminate].
    destruct (IH s H) as [b ->]. now exists b.
Qed.

Lemma includes_inv (m s : string) :
  JsString.includes m s = true -> exists a b, s = a +:+ m +:+ b.
Proof.
  induction s as [|c s IH]; cbn [JsString.includes]; intros H.
  - apply orb_true_iff in H as [H|H]; [|discriminate].
    apply prefix_inv in H as [b ->]. now exists "", b.
  - apply orb_true_iff in H as [H|H].
    + apply prefix_inv in H as [b ->]. now exists "", b.
    + destruct (IH H) as (a & b & ->). now exists (String c a), b.
Qed.

(** A text that includes [m] still does inside a longer text. *)
Lemma includes_embedded (m a s b : string) :
  JsString.includes m s = true -> JsString.includes m (a +:+ s +:+ b) = true.
Proof.
  intros (a' & b' & ->)%includes_inv.
  rewrite !string_app_assoc, <- (string_app_assoc a a').
  apply includes_app.
Qed.

Lemma mismatch_embedded (a s b : string) :
  isGeminiNotFoundOrUnsupported s = true ->
  isGeminiNotFoundOrUnsupported (a +:+ s +:+ b) = true.
Proof.
  unfold isGeminiNotFoundOrUnsupported. rewrite !orb_true_iff.
  intros [[[H|H]|H]|H]; eauto using includes_embedded.
Qed.

Lemma total_sleep_app (tr1 tr2 : list Event) :
  total_sleep (tr1 ++ tr2) = total_sleep tr1 + total_sleep tr2.
Proof.
  induction tr1 as [|ev tr1 IH]; [reflexivity|].
  destruct ev; cbn [app total_sleep]; lia.
Qed.

Section SelectorEdge.

Context {World : Type}.
Variable JSON_parse : string -> string + JSON.
Variable JSON_stringify : JSON -> string.
Variable fetch : string -> RequestInit -> Z -> World -> Outcome * World.
Variables (apiKey prompt : string).

Local Abbreviation listing v := (EvFetch (list_url v) (list_init apiKey) 15000).
Local Abbreviation generation v model :=
  (EvFetch (generate_url v model) (generate_init JSON_stringify apiKey prompt) 30000).
Local Abbreviation generate v model :=
  (generateContent JSON_parse JSON_stringify fetch v model apiKey prompt).
Local Abbreviation loop v gc :=
  (candidate_loop JSON_parse JSON_stringify fetch v apiKey prompt gc).
Local Abbreviation pick :=
  (generateWithAutoPick JSON_parse JSON_stringify fetch apiKey prompt).

(** One generation: at most four requests and 5600 ms of sleep. *)
Lemma generate_cost (v : GeminiApiVersion) (model : string) (w : World) :
  (length (attempts (trace (generate v model w))) <= 4)%nat /\
  0 <= total_sleep (trace (generate v model w)) <= 5600.
Proof.
  rewrite generateContent_run. cbn [trace]. unfold postJsonWithRetry.
  rewrite (retry_loop_attempts fetch _ _ _ 3 3 0 None w eq_refl).
  rewrite (retry_loop_sleep fetch _ _ _ 3 3 0 None w eq_refl).
  set (os := outcomes fetch _ _ _ 3 w).
  pose proof (leading_retryable_le os) as Hle.
  subst os. rewrite outcomes_length in Hle. rewrite length_replicate.
  set (n := leading_retryable _) in *.
  split; [lia|].
  assert (Hn : n = 0%nat \/ n = 1%nat \/ n = 2%nat \/ n = 3%nat) by lia.
  destruct Hn as [-> | [-> | [-> | ->]]]; split; vm_compute; discriminate.
Qed.

(** X9. A candidate that the capability filter skips is never
    requested: no generation request for it appears in the trace of the
    candidate loop, whatever the other candidates do. *)
Theorem skipped_candidate_is_never_requested
        (v : GeminiApiVersion) (gc : gset string) (cs : list string) (w : World)
        (c : string) (init : RequestInit) (timeoutMs : Z) :
  skipped gc c = true ->
  EvFetch (generate_url v c) init timeoutMs ∉ trace (loop v gc cs w).
Proof.
  intros Hskip Hin.
  apply candidate_loop_requests in Hin as (c' & _ & Hs & Heq).
  assert (Hu : generate_url v c = generate_url v c') by congruence.
  apply generate_url_inj in Hu. subst c'. congruence.
Qed.

(** X10. The candidates of a catalog are exactly the non-empty bare
    names of its entries that have a string name, each taken once. *)
Theorem candidates_are_the_named_models_once (models : list GeminiModel) :
  let candidates := candidates_of (available_of models) in
  NoDup candidates /\
  forall c : string,
    c ∈ candidates <->
    c <> "" /\
    exists m full, m ∈ models /\ model_name m = Some full /\ c = shortModelName full.
Proof.
  intros candidates. split.
  - apply candidates_of_NoDup.
  - intros c. subst candidates. rewrite candidates_of_elem. apply available_of_elem.
Qed.

(** X11. The candidate loop asks each candidate at most four times:
    over [n] candidates it sends at most [4 * n] requests and sleeps at
    most [5600 * n] ms. *)
Theorem candidate_loop_cost (v : GeminiApiVersion) (gc : gset string)
        (cs : list string) (w : World) :
  (length (attempts (trace (loop v gc cs w))) <= 4 * length cs)%nat /\
  0 <= total_sleep (trace (loop v gc cs w)) <= 5600 * Z.of_nat (length cs).
Proof.
  revert w. induction cs as [|m cs IH]; intros w.
  - cbn. lia.
  - rewrite candidate_loop_cons, bind_run, candidate_body_run.
    destruct (generate_cost v m w) as [Hatt Hsleep].
    destruct (skipped gc m); cbn [result final trace].
    + specialize (IH w). cbn [app length] in *. lia.
    + cbn zeta. destruct (result (generate v m w)) as [text|e]; cbn [result final trace].
      * cbn [mret M_ret ret trace]. rewrite app_nil_r. cbn [length]. lia.
      * specialize (IH (final (generate v m w))).
        destruct (isGeminiNotFoundOrUnsupported (message e)); cbn [result final trace];
          rewrite ?attempts_app, ?total_sleep_app, ?length_app; cbn [attempts List.filter is_fetch total_sleep length] in *; lia.
Qed.

(** A version whose catalog has no usable name: the listing and
    nothing else. *)
Lemma version_body_without_names (v : GeminiApiVersion) (w : World)
      (models : list GeminiModel) :
  let l := listModels JSON_parse fetch v apiKey w in
  result l = Ok models ->
  available_of models = [] ->
  version_body JSON_parse JSON_stringify fetch apiKey prompt v w =
  MkRun (Ok None) (final l) (trace l).
Proof.
  intros l Hl Ha. rewrite version_body_run. cbn zeta. fold l. rewrite Hl, Ha.
  change (candidates_of []) with (@nil string). cbn [candidate_loop].
  cbn [mret M_ret ret result final trace]. now rewrite app_nil_r.
Qed.

(** X12. A catalog without usable names (no [models] array, an empty
    one, entries without a string name or with an empty bare name) gives
    no candidate: when both versions answer with such a catalog, the
    selection throws the exhaustion error after the two listing requests
    alone, without a warning. *)
Theorem empty_catalogs_give_exhaustion
        (w : World) (models1 models2 : list GeminiModel) :
  let l1 := listModels JSON_parse fetch V1beta apiKey w in
  let l2 := listModels JSON_parse fetch V1 apiKey (final l1) in
  result l1 = Ok models1 ->
  available_of models1 = [] ->
  result l2 = Ok models2 ->
  available_of models2 = [] ->
  pick w = MkRun (Throw exhausted) (final l2) [listing V1beta; listing V1].
Proof.
  intros l1 l2 H1 Ha1 H2 Ha2.
  unfold generateWithAutoPick. rewrite bind_run.
  rewrite version_loop_cons, bind_run.
  rewrite (version_body_without_names V1beta w models1 H1 Ha1).
  fold l1. cbn [result final trace].
  rewrite version_loop_cons, bind_run.
  rewrite (version_body_without_names V1 (final l1) models2 H2 Ha2).
  fold l2. cbn [result final trace version_loop].
  cbn [mret M_ret ret throw result final trace].
  subst l1 l2. rewrite !listModels_run. reflexivity.
Qed.

(** X13. A failed generation whose response body contains one of the
    mismatch markers is a mismatch whatever its status: the message built
    from it is classified as such, and the loop goes on with the next
    candidate instead of stopping. *)
Theorem marker_in_body_continues_whatever_the_status
        (v : GeminiApiVersion) (gc : gset string) (model : string) (rest : list string)
        (w : World) (resp : Response) :
  let g := generate v model w in
  let msg := generate_failed_msg v model resp in
  result (postJsonWithRetry fetch (generate_url v model)
            (generate_init JSON_stringify apiKey prompt) 30000 3 w) = Ok resp ->
  status_ok (status resp) = false ->
  isGeminiNotFoundOrUnsupported (raw resp) = true ->
  skipped gc model = false ->
  isGeminiNotFoundOrUnsupported msg = true /\
  loop v gc (model :: rest) w =
  MkRun (result (loop v gc rest (final g))) (final (loop v gc rest (final g)))
        ((trace g ++ [EvWarn (warn_generate_failed msg)]) ++
         trace (loop v gc rest (final g))).
Proof.
  intros g msg Hpost Hst Hraw Hskip.
  assert (Hmsg : isGeminiNotFoundOrUnsupported msg = true).
  { subst msg. unfold generate_failed_msg.
    rewrite <- !string_app_assoc.
    rewrite <- (string_app_nil (raw resp)) at 1.
    change ("" +:+ raw resp) with (raw resp).
    replace (raw resp) with (raw resp +:+ "") at 1.
    - apply mismatch_embedded. exact Hraw.
    - clear. induction (raw resp) as [|c s IH]; [reflexivity|].
      rewrite string_app_cons. now rewrite IH. }
  split; [exact Hmsg|].
  assert (Hg : result g = Throw (Error msg)).
  { subst g. rewrite generateContent_run. cbn [result]. rewrite Hpost.
    cbn [generation_result]. now rewrite Hst. }
  rewrite (candidate_loop_failed_attempt JSON_parse JSON_stringify fetch v apiKey prompt
             gc model rest w (Error msg) Hskip Hg).
  cbn [message]. now rewrite Hmsg.
Qed.

End SelectorEdge.


(** ** Facts about white space *)

Section WhiteSpace.

Import JsText.

Lemma trim_is_empty_strip (s : string) :
  JsString.trim_is_empty s =
  match s with
  | EmptyString => true
  | String _ _ =>
      match strip_ws s with
      | Some r => JsString.trim_is_empty r
      | None => false
      end
  end.
Proof.
  destruct s as [|c1 [|c2 [|c3 r]]]; cbn; try reflexivity;
    repeat (match goal with |- context [if ?b then _ else _] => destruct b end;
            try reflexivity).
Qed.

Lemma trim_start_strip (s : string) :
  trim_start s = match strip_ws s with Some r => trim_start r | None => s end.
Proof.
  destruct s as [|c1 [|c2 [|c3 r]]]; cbn; try reflexivity;
    repeat (match goal with |- context [if ?b then _ else _] => destruct b end;
            try reflexivity).
Qed.

Lemma collapse_strip (b : bool) (s : string) :
  collapse_spaces b s =
  match s with
  | EmptyString => EmptyString
  | String c t =>
      match strip_ws s with
      | Some r => if b then collapse_spaces true r else String space (collapse_spaces true r)
      | None => String c (collapse_spaces false t)
      end
  end.
Proof.
  destruct s as [|c1 [|c2 [|c3 r]]]; cbn; try reflexivity;
    repeat (match goal with |- context [if ?b then _ else _] => destruct b end;
            try reflexivity).
Qed.

Lemma strip_ws_length (s r : string) :
  strip_ws s = Some r -> (String.length r < String.length s)%nat.
Proof.
  destruct s as [|c1 [|c2 [|c3 t]]]; cbn;
    repeat (match goal with |- context [if ?b then _ else _] => destruct b end);
    intros [= <-] || discriminate; cbn; lia.
Qed.


(** Induction along a left-to-right scan: a white space character is
    passed whole, any other byte alone. *)
Lemma scan_ind (P : string -> Prop) :
  P EmptyString ->
  (forall s r, strip_ws s = Some r -> P r -> P s) ->
  (forall c t, strip_ws (String c t) = None -> P t -> P (String c t)) ->
  forall s, P s.
Proof.
  intros Hnil Hws Hbyte s.
  remember (String.length s) as n eqn:Hn.
  revert s Hn. induction n as [n IH] using lt_wf_ind. intros s Hn.
  destruct s as [|c t]; [exact Hnil|].
  destruct (strip_ws (String c t)) as [r|] eqn:Hstrip.
  - apply (Hws _ r Hstrip). apply (IH (String.length r)); [|reflexivity].
    apply strip_ws_length in Hstrip. lia.
  - apply (Hbyte c t Hstrip). apply (IH (String.length t)); [|reflexivity].
    subst n. cbn. lia.
Qed.

Lemma strip_ws_space (t : string) : strip_ws (String space t) = Some t.
Proof. reflexivity. Qed.

Lemma ws2_space (c : ascii) : JsString.ws2 c space = false.
Proof. unfold JsString.ws2. cbn. apply andb_false_r. Qed.

Lemma ws3_space_2 (c1 c3 : ascii) : JsString.ws3 c1 space c3 = false.
Proof.
  unfold JsString.ws3. change (nat_of_ascii space) with 32%nat. cbn [Nat.eqb].
  rewrite !andb_false_r. reflexivity.
Qed.

Lemma ws3_space_3 (c1 c2 : ascii) : JsString.ws3 c1 c2 space = false.
Proof.
  unfold JsString.ws3. change (nat_of_ascii space) with 32%nat.
  change (128 <=? 32)%nat with false. cbn [Nat.eqb andb orb].
  rewrite !andb_false_r. reflexivity.
Qed.

(** What decides [strip_ws] on a text that does not start with white
    space is its first three bytes; it stays undecided-free when the
    bytes after the first are kept, cut short, or give way to a space. *)
Lemma strip_ws_stable (c1 : ascii) (r r' : string) :
  strip_ws (String c1 r) = None ->
  agree 2 r r' ->
  strip_ws (String c1 r') = None.
Proof.
  intros Hnone Hag. cbn [strip_ws] in *.
  destruct (JsString.ws1 c1); [discriminate|].
  destruct Hag as [-> | [[t ->] | (c2 & t & t' & -> & -> & Hag)]].
  - reflexivity.
  - rewrite ws2_space. destruct t as [|c3 t]; [reflexivity|].
    now rewrite ws3_space_2.
  - destruct (JsString.ws2 c1 c2); [discriminate|].
    destruct Hag as [-> | [[u ->] | (c3 & u & u' & -> & -> & _)]].
    + reflexivity.
    + now rewrite ws3_space_3.
    + destruct (JsString.ws3 c1 c2 c3); [discriminate | reflexivity].
Qed.

Lemma agree_trim_end (k : nat) (r : string) : agree k r (trim_end r).
Proof.
  revert r. induction k as [|k IH]; intros r; [exact I|].
  destruct r as [|c t]; [now left|]. cbn [trim_end].
  destruct (JsString.trim_is_empty (String c t)); [now left|].
  right. right. exists c, t, (trim_end t). repeat split. apply IH.
Qed.

Lemma agree_collapse (k : nat) (r : string) : agree k r (collapse_spaces false r).
Proof.
  revert r. induction k as [|k IH]; intros r; [exact I|].
  rewrite collapse_strip. destruct r as [|c t]; [now left|].
  destruct (strip_ws (String c t)).
  - right. left. eauto.
  - right. right. exists c, t, (collapse_spaces false t). repeat split. apply IH.
Qed.

Lemma agree_trans (k : nat) (r r' r'' : string) :
  agree k r r' -> agree k r' r'' -> agree k r r''.
Proof.
  revert r r' r''. induction k as [|k IH]; intros r r' r'' H1 H2; [exact I|].
  destruct H2 as [-> | [[t ->] | (c & t & t'' & -> & -> & H2)]].
  - now left.
  - right. left. eauto.
  - destruct H1 as [H1 | [[u H1] | (c' & u & u' & -> & H1 & H1')]].
    + discriminate.
    + injection H1 as -> ->. right. left. eauto.
    + injection H1 as -> ->. right. right. exists c', u, t''. repeat split.
      eapply IH; eassumption.
Qed.

(** *** Blank texts *)

Lemma not_blank_of_strip_none (c : ascii) (t : string) :
  strip_ws (String c t) = None -> JsString.trim_is_empty (String c t) = false.
Proof. intros H. rewrite trim_is_empty_strip. now rewrite H. Qed.

Lemma blank_of_strip_some (s r : string) :
  strip_ws s = Some r -> JsString.trim_is_empty s = JsString.trim_is_empty r.
Proof.
  intros H. rewrite trim_is_empty_strip. destruct s; [discriminate|]. now rewrite H.
Qed.

Lemma trim_end_empty_iff (s : string) :
  trim_end s = EmptyString <-> JsString.trim_is_empty s = true.
Proof.
  destruct s as [|c t]; [easy|]. cbn [trim_end].
  destruct (JsString.trim_is_empty (String c t)); easy.
Qed.

Lemma blank_trim_start (s : string) :
  JsString.trim_is_empty (trim_start s) = JsString.trim_is_empty s.
Proof.
  induction s as [|s r Hs IH|c t Hs IH] using scan_ind.
  - reflexivity.
  - rewrite trim_start_strip, Hs, IH. symmetry. now apply blank_of_strip_some.
  - now rewrite trim_start_strip, Hs.
Qed.

Lemma strip_trim_start (s : string) : strip_ws (trim_start s) = None.
Proof.
  induction s as [|s r Hs IH|c t Hs IH] using scan_ind.
  - reflexivity.
  - now rewrite trim_start_strip, Hs.
  - now rewrite trim_start_strip, Hs.
Qed.

(** [trim] gives the empty text exactly on blank texts. *)
Lemma trim_empty_iff (s : string) :
  trim s = EmptyString <-> JsString.trim_is_empty s = true.
Proof. unfold trim. now rewrite trim_end_empty_iff, blank_trim_start. Qed.


(** *** Inside a white space character *)

Lemma strip_ws_mid (c : ascii) (x : string) :
  (128 <= nat_of_ascii c <= 193)%nat -> strip_ws (String c x) = None.
Proof.
  intros Hc. cbn [strip_ws]. unfold JsString.ws1, JsString.ws2, JsString.ws3.
  replace (nat_of_ascii c <=? 13)%nat with false by (symmetry; apply Nat.leb_gt; lia).
  replace (nat_of_ascii c =? 32)%nat with false by (symmetry; apply Nat.eqb_neq; lia).
  replace (nat_of_ascii c =? 194)%nat with false by (symmetry; apply Nat.eqb_neq; lia).
  replace (nat_of_ascii c =? 225)%nat with false by (symmetry; apply Nat.eqb_neq; lia).
  replace (nat_of_ascii c =? 226)%nat with false by (symmetry; apply Nat.eqb_neq; lia).
  replace (nat_of_ascii c =? 227)%nat with false by (symmetry; apply Nat.eqb_neq; lia).
  replace (nat_of_ascii c =? 239)%nat with false by (symmetry; apply Nat.eqb_neq; lia).
  rewrite andb_false_r. cbn [orb andb].
  destruct x as [|c2 [|c3 x]]; reflexivity.
Qed.

Lemma ws2_second (c1 c2 : ascii) :
  JsString.ws2 c1 c2 = true -> (128 <= nat_of_ascii c2 <= 193)%nat.
Proof.
  unfold JsString.ws2. intros [_ H]%andb_true_iff. apply Nat.eqb_eq in H. lia.
Qed.

Lemma ws3_second_third (c1 c2 c3 : ascii) :
  JsString.ws3 c1 c2 c3 = true ->
  (128 <= nat_of_ascii c2 <= 193)%nat /\ (128 <= nat_of_ascii c3 <= 193)%nat.
Proof.
  unfold JsString.ws3. intros H.
  repeat match type of H with
         | (_ || _ = true) => apply orb_true_iff in H; destruct H as [H|H]
         end;
    apply andb_true_iff in H as [[_ H2]%andb_true_iff H3];
    apply Nat.eqb_eq in H2;
    repeat match type of H3 with
           | (_ || _ = true) => apply orb_true_iff in H3; destruct H3 as [H3|H3]
           end;
    try apply Nat.eqb_eq in H3;
    try (apply andb_true_iff in H3 as [H3 H3']; apply Nat.leb_le in H3, H3');
    lia.
Qed.

Lemma trim_end_not_blank (c : ascii) (t : string) :
  JsString.trim_is_empty (String c t) = false ->
  trim_end (String c t) = String c (trim_end t).
Proof. intros H. cbn [trim_end]. now rewrite H. Qed.

Lemma blank_trim_end (s : string) :
  JsString.trim_is_empty (trim_end s) = JsString.trim_is_empty s.
Proof.
  induction s as [|s r Hs IH|c t Hs IH] using scan_ind.
  - reflexivity.
  - destruct (JsString.trim_is_empty s) eqn:Hblank.
    { apply trim_end_empty_iff in Hblank. now rewrite Hblank. }
    assert (Hr : JsString.trim_is_empty r = false)
      by now rewrite <- (blank_of_strip_some s r Hs).
    rewrite Hr in IH.
    destruct s as [|c1 r1]; [discriminate|].
    rewrite (trim_end_not_blank _ _ Hblank). cbn [strip_ws] in Hs.
    destruct (JsString.ws1 c1) eqn:H1.
    { injection Hs as ->. rewrite trim_is_empty_strip. cbn [strip_ws]. now rewrite H1. }
    destruct r1 as [|c2 r2]; [discriminate|].
    destruct (JsString.ws2 c1 c2) eqn:H2.
    { injection Hs as ->.
      rewrite (trim_end_not_blank c2 r)
        by (apply not_blank_of_strip_none, strip_ws_mid, (ws2_second c1), H2).
      rewrite trim_is_empty_strip. cbn [strip_ws]. now rewrite H1, H2. }
    destruct r2 as [|c3 r3]; [discriminate|].
    destruct (JsString.ws3 c1 c2 c3) eqn:H3; [|discriminate].
    injection Hs as ->. destruct (ws3_second_third _ _ _ H3) as [Hc2 Hc3].
    rewrite (trim_end_not_blank c2 (String c3 r))
      by (apply not_blank_of_strip_none, strip_ws_mid, Hc2).
    rewrite (trim_end_not_blank c3 r)
      by (apply not_blank_of_strip_none, strip_ws_mid, Hc3).
    rewrite trim_is_empty_strip. cbn [strip_ws]. now rewrite H1, H2, H3.
  - rewrite (not_blank_of_strip_none c t Hs).
    rewrite (trim_end_not_blank c t (not_blank_of_strip_none c t Hs)).
    apply not_blank_of_strip_none.
    apply (strip_ws_stable c t); [exact Hs | apply agree_trim_end].
Qed.

Lemma trim_end_idem (s : string) : trim_end (trim_end s) = trim_end s.
Proof.
  induction s as [|c t IH]; [reflexivity|].
  destruct (JsString.trim_is_empty (String c t)) eqn:Hblank.
  - apply trim_end_empty_iff in Hblank. now rewrite Hblank.
  - rewrite (trim_end_not_blank c t Hblank).
    rewrite trim_end_not_blank; [now rewrite IH|].
    rewrite <- (trim_end_not_blank c t Hblank). now rewrite blank_trim_end.
Qed.

Lemma strip_trim_end (s : string) : strip_ws s = None -> strip_ws (trim_end s) = None.
Proof.
  destruct s as [|c t]; [easy|]. intros Hs.
  rewrite (trim_end_not_blank c t (not_blank_of_strip_none c t Hs)).
  apply (strip_ws_stable c t); [exact Hs | apply agree_trim_end].
Qed.

Lemma trim_start_id (s : string) : strip_ws s = None -> trim_start s = s.
Proof. intros H. now rewrite trim_start_strip, H. Qed.

(** [trim] leaves a trimmed text as it is. *)
Lemma trim_idem (s : string) : trim (trim s) = trim s.
Proof.
  unfold trim. rewrite (trim_start_id (trim_end (trim_start s))).
  - apply trim_end_idem.
  - apply strip_trim_end, strip_trim_start.
Qed.

(** *** Collapsing runs *)

Lemma strip_collapse_true (s : string) : strip_ws (collapse_spaces true s) = None.
Proof.
  induction s as [|s r Hs IH|c t Hs IH] using scan_ind.
  - reflexivity.
  - rewrite collapse_strip. destruct s; [discriminate|]. now rewrite Hs.
  - rewrite collapse_strip, Hs.
    apply (strip_ws_stable c t); [exact Hs | apply agree_collapse].
Qed.

Lemma trim_start_collapse (s : string) :
  trim_start (collapse_spaces false s) = collapse_spaces true s.
Proof.
  rewrite (collapse_strip false), (collapse_strip true).
  destruct s as [|c t]; [reflexivity|].
  destruct (strip_ws (String c t)) as [r|] eqn:Hs.
  - rewrite trim_start_strip, strip_ws_space.
    apply trim_start_id, strip_collapse_true.
  - apply trim_start_id.
    apply (strip_ws_stable c t); [exact Hs | apply agree_collapse].
Qed.

(** The text without its leading run, runs collapsed, and cut at its
    trailing run. *)
Lemma normalizeText_alt (s : string) :
  normalizeText s = trim_end (collapse_spaces true s).
Proof. unfold normalizeText, trim. now rewrite trim_start_collapse. Qed.

Lemma collapse_fixed (s : string) :
  collapse_spaces false (collapse_spaces false s) = collapse_spaces false s /\
  collapse_spaces true (collapse_spaces true s) = collapse_spaces true s.
Proof.
  induction s as [|s r Hs [IH1 IH2]|c t Hs [IH1 IH2]] using scan_ind.
  - split; reflexivity.
  - rewrite (collapse_strip false s), (collapse_strip true s).
    destruct s as [|c t]; [discriminate|]. rewrite Hs. split; [|exact IH2].
    rewrite (collapse_strip false (String space _)), strip_ws_space. now rewrite IH2.
  - rewrite (collapse_strip false (String c t)), (collapse_strip true (String c t)), Hs.
    assert (Hst : strip_ws (String c (collapse_spaces false t)) = None)
      by (apply (strip_ws_stable c t); [exact Hs | apply agree_collapse]).
    split.
    + rewrite (collapse_strip false (String c _)), Hst. now rewrite IH1.
    + rewrite (collapse_strip true (String c _)), Hst. now rewrite IH1.
Qed.

(** Cutting the trailing run of a collapsed text leaves it collapsed. *)
Lemma collapse_trim_end (s : string) :
  (collapse_spaces false s = s ->
   collapse_spaces false (trim_end s) = trim_end s) /\
  (collapse_spaces true s = s ->
   collapse_spaces true (trim_end s) = trim_end s).
Proof.
  induction s as [|s r Hs [IH1 IH2]|c t Hs [IH1 IH2]] using scan_ind.
  - split; reflexivity.
  - split.
    + rewrite (collapse_strip false s). destruct s as [|c t]; [discriminate|].
      rewrite Hs. intros Hfix. injection Hfix as Hc Hfix. subst c.
      rewrite strip_ws_space in Hs. injection Hs as <-.
      destruct (JsString.trim_is_empty (String space t)) eqn:Hblank.
      * apply trim_end_empty_iff in Hblank. now rewrite Hblank.
      * rewrite (trim_end_not_blank _ _ Hblank).
        rewrite (collapse_strip false (String space _)), strip_ws_space.
        now rewrite (IH2 Hfix).
    + intros Hfix. pose proof (strip_collapse_true s) as Hnone.
      rewrite Hfix in Hnone. congruence.
  - assert (Hnb := not_blank_of_strip_none c t Hs).
    assert (Hst : strip_ws (String c (trim_end t)) = None)
      by (apply (strip_ws_stable c t); [exact Hs | apply agree_trim_end]).
    rewrite (trim_end_not_blank c t Hnb). split.
    + rewrite (collapse_strip false (String c t)), Hs. intros [= Hfix].
      rewrite (collapse_strip false (String c _)), Hst. now rewrite (IH1 Hfix).
    + rewrite (collapse_strip true (String c t)), Hs. intros [= Hfix].
      rewrite (collapse_strip true (String c _)), Hst. now rewrite (IH1 Hfix).
Qed.

Lemma blank_collapse (b : bool) (s : string) :
  JsString.trim_is_empty (collapse_spaces b s) = JsString.trim_is_empty s.
Proof.
  revert b. induction s as [|s r Hs IH|c t Hs IH] using scan_ind; intros b.
  - reflexivity.
  - rewrite collapse_strip, (blank_of_strip_some s r Hs).
    destruct s as [|c t]; [discriminate|]. rewrite Hs. destruct b; [apply IH|].
    rewrite (blank_of_strip_some _ _ (strip_ws_space _)). apply IH.
  - rewrite collapse_strip, Hs, (not_blank_of_strip_none c t Hs).
    apply not_blank_of_strip_none.
    apply (strip_ws_stable c t); [exact Hs | apply agree_collapse].
Qed.

Lemma collapse_length (b : bool) (s : string) :
  (String.length (collapse_spaces b s) <= String.length s)%nat.
Proof.
  revert b. induction s as [|s r Hs IH|c t Hs IH] using scan_ind; intros b.
  - reflexivity.
  - rewrite collapse_strip. destruct s as [|c t]; [discriminate|]. rewrite Hs.
    apply strip_ws_length in Hs. specialize (IH true).
    destruct b; cbn [String.length] in *; lia.
  - rewrite collapse_strip, Hs. specialize (IH false). cbn [String.length]. lia.
Qed.

Lemma trim_end_length (s : string) :
  (String.length (trim_end s) <= String.length s)%nat.
Proof.
  induction s as [|c t IH]; [reflexivity|]. cbn [trim_end].
  destruct (JsString.trim_is_empty (String c t)); cbn [String.length]; lia.
Qed.

End WhiteSpace.

(** X14. [normalizeText] is idempotent, and its result is already
    trimmed and free of white space runs: collapsing or trimming it again
    changes nothing. *)
Theorem normalizeText_is_idempotent (s : string) :
  normalizeText (normalizeText s) = normalizeText s /\
  JsText.trim (normalizeText s) = normalizeText s /\
  JsText.collapse_spaces false (normalizeText s) = normalizeText s.
Proof.
  assert (Hfix : JsText.collapse_spaces true (normalizeText s) = normalizeText s).
  { rewrite normalizeText_alt.
    apply (collapse_trim_end (JsText.collapse_spaces true s)), collapse_fixed. }
  assert (Hnone : JsText.strip_ws (normalizeText s) = None).
  { rewrite normalizeText_alt. apply strip_trim_end, strip_collapse_true. }
  assert (Hidem : normalizeText (normalizeText s) = normalizeText s).
  { rewrite (normalizeText_alt (normalizeText s)), Hfix.
    rewrite normalizeText_alt. apply trim_end_idem. }
  split; [exact Hidem|]. split.
  - unfold JsText.trim. rewrite (trim_start_id _ Hnone).
    rewrite normalizeText_alt. apply trim_end_idem.
  - rewrite <- Hfix at 2. rewrite (collapse_strip false), (collapse_strip true).
    destruct (normalizeText s) as [|c t]; [reflexivity|]. now rewrite Hnone.
Qed.

(** X15. [normalizeText] gives the empty text exactly on blank texts
    (empty or white space only), and never a longer text than it got. *)
Theorem normalizeText_empty_iff_blank (s : string) :
  (normalizeText s = "" <-> JsString.trim_is_empty s = true) /\
  (String.length (normalizeText s) <= String.length s)%nat.
Proof.
  split.
  - unfold normalizeText. now rewrite trim_empty_iff, blank_collapse.
  - rewrite normalizeText_alt.
    etransitivity; [apply trim_end_length | apply collapse_length].
Qed.

Example normalizeText_samples :
  normalizeText "  Rust 1.80   was released today. " = "Rust 1.80 was released today." /\
  normalizeText (" a" +:+ nl +:+ nl +:+ "b ") = "a b" /\
  normalizeText "   " = "".
Proof. repeat split; reflexivity. Qed.

(** ** The handler *)

Section HandlerFacts.

Context {World : Type}.
Variable JSON_parse : string -> string + JSON.
Variable JSON_stringify : JSON -> string.
Variable fetch : string -> RequestInit -> Z -> World -> Outcome * World.
Variable js_length : string -> Z.
Variable js_slice0 : Z -> string -> string.
Variables (req : VercelRequest) (GEMINI_API_KEY : option string) (w : World).

Local Abbreviation handled :=
  (handler JSON_parse JSON_stringify fetch js_length js_slice0 req GEMINI_API_KEY w).
Local Abbreviation articleText := (Js.prop (req_body req) "articleText").
Local Abbreviation question := (Js.prop (req_body req) "question").

(** The prompt the handler builds from two accepted texts. *)
Local Abbreviation prompt_of a qn :=
  (build_prompt (js_slice0 8000 (normalizeText a)) (js_slice0 1000 (normalizeText qn))).

(** The handler on a request that passes every check. *)
Lemma handler_accepted (a qn key : string) :
  let r := generateWithAutoPick JSON_parse JSON_stringify fetch key (prompt_of a qn) w in
  is_post (req_method req) = true ->
  nonblank_string articleText = Some a ->
  nonblank_string question = Some qn ->
  truthy_key GEMINI_API_KEY = Some key ->
  after handled = final r /\
  (forall ev, HCore ev ∈ events handled <-> ev ∈ trace r) /\
  match result r with
  | Ok sel =>
      response handled =
        {| res_status := 200;
           res_json := JObj [("answer", JStr (JsText.trim (sel_text sel)))] |} /\
      last (events handled) =
        Some (HLog [LogStr "[DEBUG] Gemini picked:";
                    LogPicked (sel_version sel) (sel_model sel)])
  | Throw e =>
      response handled = {| res_status := 500; res_json := json_error (message e) |} /\
      last (events handled) =
        Some (HError [LogStr "An error occurred in answer-question handler:";
                      LogStr (message e)])
  end.
Proof.
  intros r Hpost Ha Hq Hkey. unfold handler. rewrite Hpost, Ha, Hq, Hkey. fold r.
  assert (Hcore : forall (pre : list HandlerEvent) (tail : HandlerEvent) ev,
             (forall ev', HCore ev' ∉ pre) -> (forall ev', tail <> HCore ev') ->
             HCore ev ∈ pre ++ (HCore <$> trace r) ++ [tail] <-> ev ∈ trace r).
  { intros pre tail ev Hpre Htail. rewrite !elem_of_app, list_elem_of_fmap,
      list_elem_of_singleton. split.
    - intros [Hin | [(ev' & [= ->] & Hin) | Heq]]; [now apply Hpre in Hin | exact Hin |].
      symmetry in Heq. now apply Htail in Heq.
    - intros Hin. right. left. now exists ev. }
  assert (Hlogged : forall ev',
             HCore ev' ∉ banner :: debug_lines js_length articleText question GEMINI_API_KEY).
  { intros ev' Hin. unfold banner, debug_lines in Hin.
    repeat (apply elem_of_cons in Hin as [Hin|Hin]; [discriminate|]).
    now apply elem_of_nil in Hin. }
  destruct (result r) as [sel|e]; cbn [after events response].
  - split; [reflexivity|]. split.
    + intros ev. apply Hcore; [exact Hlogged | discriminate].
    + split; [reflexivity|]. now rewrite !last_app.
  - split; [reflexivity|]. split.
    + intros ev. apply Hcore; [exact Hlogged | discriminate].
    + split; [reflexivity|]. now rewrite !last_app.
Qed.

(** The handler on a request that fails a check sends nothing. *)
Lemma handler_rejected :
  is_post (req_method req) = false \/
  nonblank_string articleText = None \/
  nonblank_string question = None \/
  truthy_key GEMINI_API_KEY = None ->
  after handled = w /\
  (forall ev, HCore ev ∉ events handled).
Proof.
  intros Hbad. unfold handler.
  assert (Hlogged : forall ev',
             HCore ev' ∉ banner :: debug_lines js_length articleText question GEMINI_API_KEY).
  { intros ev' Hin. unfold banner, debug_lines in Hin.
    repeat (apply elem_of_cons in Hin as [Hin|Hin]; [discriminate|]).
    now apply elem_of_nil in Hin. }
  destruct (is_post (req_method req)) eqn:Hpost.
  - destruct (nonblank_string articleText) as [a|] eqn:Ha.
    + destruct (nonblank_string question) as [qn|] eqn:Hq.
      * destruct (truthy_key GEMINI_API_KEY) as [key|] eqn:Hkey.
        { destruct Hbad as [?|[?|[?|?]]]; discriminate. }
        cbn [after events]. now split.
      * cbn [after events]. now split.
    + cbn [after events]. now split.
  - cbn [after events]. split; [reflexivity|].
    intros ev Hin. apply list_elem_of_singleton in Hin. discriminate.
Qed.

(** X16. A request is turned down before anything is sent upstream: a
    method other than POST gets 405; otherwise an article or a question
    that is missing, not a string or blank gets 400; otherwise a missing
    or empty API key gets 500. In each case the upstream is left
    untouched and no request, sleep or warning of the selection occurs. *)
Theorem handler_rejects_before_any_request :
  is_post (req_method req) = false \/
  nonblank_string articleText = None \/
  nonblank_string question = None \/
  truthy_key GEMINI_API_KEY = None ->
  after handled = w /\
  (forall ev, HCore ev ∉ events handled) /\
  res_status (response handled) =
    (if negb (is_post (req_method req)) then 405
     else if bool_decide (is_Some (nonblank_string articleText) /\
                          is_Some (nonblank_string question)) then 500
     else 400).
Proof.
  intros Hbad. destruct (handler_rejected Hbad) as [Hw Hno].
  split; [exact Hw|]. split; [exact Hno|]. clear Hw Hno.
  unfold handler.
  destruct (is_post (req_method req)) eqn:Hpost; cbn [negb]; [|reflexivity].
  destruct (nonblank_string articleText) as [a|] eqn:Ha.
  - destruct (nonblank_string question) as [qn|] eqn:Hq.
    + destruct (truthy_key GEMINI_API_KEY) as [key|] eqn:Hkey.
      { destruct Hbad as [?|[?|[?|?]]]; discriminate. }
      cbn [response res_status].
      now rewrite bool_decide_eq_true_2 by (split; eauto).
    + cbn [response res_status].
      now rewrite bool_decide_eq_false_2 by (intros [_ [? ?]]; discriminate).
  - cbn [response res_status].
    now rewrite bool_decide_eq_false_2 by (intros [[? ?] _]; discriminate).
Qed.

(** X17. The handler answers 200 only with an answer: the request is
    a POST with a non-blank article and question and the key is set, the
    selection run with that key on the prompt built from that article
    and that question has succeeded, and the body is [{answer}] where the
    answer is the trimmed text of that selection, is not empty, and has
    no white space left at either end. *)
Theorem handler_200_carries_a_real_answer :
  res_status (response handled) = 200 ->
  exists (key a qn : string) (sel : Selection),
    is_post (req_method req) = true /\
    nonblank_string articleText = Some a /\
    nonblank_string question = Some qn /\
    truthy_key GEMINI_API_KEY = Some key /\
    result (generateWithAutoPick JSON_parse JSON_stringify fetch key (prompt_of a qn) w)
      = Ok sel /\
    res_json (response handled) = JObj [("answer", JStr (JsText.trim (sel_text sel)))] /\
    JsText.trim (sel_text sel) <> "" /\
    JsText.trim (JsText.trim (sel_text sel)) = JsText.trim (sel_text sel).
Proof.
  destruct (is_post (req_method req)) eqn:Hpost;
    [|unfold handler; rewrite Hpost; discriminate].
  destruct (nonblank_string articleText) as [a|] eqn:Ha;
    [|unfold handler; rewrite Hpost, Ha; discriminate].
  destruct (nonblank_string question) as [qn|] eqn:Hq;
    [|unfold handler; rewrite Hpost, Ha, Hq; discriminate].
  destruct (truthy_key GEMINI_API_KEY) as [key|] eqn:Hkey;
    [|unfold handler; rewrite Hpost, Ha, Hq, Hkey; discriminate].
  destruct (handler_accepted a qn key Hpost Ha Hq Hkey) as (_ & _ & Hres).
  destruct (result (generateWithAutoPick _ _ _ key (prompt_of a qn) w)) as [sel|e] eqn:Hr.
  - destruct Hres as [-> _]. intros _. exists key, a, qn, sel.
    do 4 (split; [reflexivity|]). split; [exact Hr|]. split; [reflexivity|]. split.
    + intros Hempty. apply trim_empty_iff in Hempty.
      unfold generateWithAutoPick in Hr. rewrite bind_run in Hr.
      destruct (result (version_loop _ _ _ key _ [V1beta; V1] w)) as [[sel'|]|e'] eqn:Hloop;
        cbn [result] in Hr; try discriminate.
      injection Hr as ->.
      apply version_loop_picked in Hloop as (_ & _ & Hblank & _). congruence.
    + apply trim_idem.
  - destruct Hres as [-> _]. discriminate.
Qed.

(** X18. When a request that passes every check fails, the handler
    answers 500 with the message of the error thrown by the selection,
    and logs that same message as its last act; the message is the
    exhaustion message or that of a generation failure without a
    mismatch marker, never a listing error. *)
Theorem handler_500_reports_the_selection_error (a qn key : string) :
  is_post (req_method req) = true ->
  nonblank_string articleText = Some a ->
  nonblank_string question = Some qn ->
  truthy_key GEMINI_API_KEY = Some key ->
  res_status (response handled) = 500 ->
  exists e : JsError,
    result (generateWithAutoPick JSON_parse JSON_stringify fetch key (prompt_of a qn) w)
      = Throw e /\
    res_json (response handled) = json_error (message e) /\
    last (events handled) =
      Some (HError [LogStr "An error occurred in answer-question handler:";
                    LogStr (message e)]) /\
    isGeminiNotFoundOrUnsupported (message e) = false.
Proof.
  intros Hpost Ha Hq Hkey Hst.
  destruct (handler_accepted a qn key Hpost Ha Hq Hkey) as (_ & _ & Hres).
  destruct (result (generateWithAutoPick _ _ _ key (prompt_of a qn) w)) as [sel|e] eqn:Hr.
  - destruct Hres as [Hresp _]. rewrite Hresp in Hst. discriminate.
  - destruct Hres as [Hresp Hlast]. exists e. rewrite Hresp.
    repeat split; try assumption; try reflexivity.
    unfold generateWithAutoPick in Hr. rewrite bind_run in Hr.
    destruct (result (version_loop _ _ _ key _ [V1beta; V1] w)) as [[sel'|]|e'] eqn:Hloop;
      cbn [result] in Hr; try discriminate.
    + injection Hr as <-. reflexivity.
    + injection Hr as <-. now apply version_loop_thrown in Hloop.
Qed.

(** X19. Every HTTP request the handler causes goes to a listing or a
    generation URL of the service and carries the configured API key in
    its [x-goog-api-key] header. *)
Theorem handler_requests_carry_the_key
        (url : string) (init : RequestInit) (timeoutMs : Z) :
  HCore (EvFetch url init timeoutMs) ∈ events handled ->
  exists key : string,
    truthy_key GEMINI_API_KEY = Some key /\
    key <> "" /\
    ("x-goog-api-key", key) ∈ headers init /\
    ((exists v, url = list_url v /\ method init = "GET" /\ timeoutMs = 15000) \/
     (exists v model, url = generate_url v model /\ method init = "POST" /\
                      timeoutMs = 30000)).
Proof.
  intros Hin.
  destruct (is_post (req_method req)) eqn:Hpost;
    [|destruct handler_rejected as (_ & Hno); [now left | now apply Hno in Hin]].
  destruct (nonblank_string articleText) as [a|] eqn:Ha;
    [|destruct handler_rejected as (_ & Hno); [now right; left | now apply Hno in Hin]].
  destruct (nonblank_string question) as [qn|] eqn:Hq;
    [|destruct handler_rejected as (_ & Hno);
      [now right; right; left | now apply Hno in Hin]].
  destruct (truthy_key GEMINI_API_KEY) as [key|] eqn:Hkey;
    [|destruct handler_rejected as (_ & Hno);
      [now right; right; right | now apply Hno in Hin]].
  destruct (handler_accepted a qn key Hpost Ha Hq Hkey) as (_ & Hcore & _).
  apply Hcore in Hin. exists key. split; [reflexivity|]. split.
  { unfold truthy_key in Hkey. destruct GEMINI_API_KEY as [k|]; [|discriminate].
    destruct k; [discriminate|]. injection Hkey as <-. discriminate. }
  unfold generateWithAutoPick in Hin. rewrite bind_run in Hin.
  assert (Hin' : EvFetch url init timeoutMs ∈
                 trace (version_loop JSON_parse JSON_stringify fetch key (prompt_of a qn)
                                     [V1beta; V1] w)).
  { destruct (result (version_loop _ _ _ key _ [V1beta; V1] w)) as [[sel|]|e];
      cbn [trace] in Hin; [| |exact Hin]; cbn in Hin; now rewrite app_nil_r in Hin. }
  apply version_loop_requests in Hin' as (v & _ & [Heq | (c & _ & Heq)]);
    injection Heq as -> -> ->.
  - split; [left|]. left. exists v. repeat split; reflexivity.
  - split; [left|]. right. exists v, c. repeat split; reflexivity.
Qed.

End HandlerFacts.

(** ** The further properties on concrete upstreams *)


Lemma selection_sends_only_listings_and_generations_witness :
  selection_request Demo.stringify "key" "prompt"
                    (demo_generation V1beta "gemini-2.0-flash").
Proof.
  apply (selection_sends_only_listings_and_generations
           Demo.parse Demo.stringify
           (Demo.table_fetch (Demo.upstream (Demo.reply 404 ""))) "key" "prompt" tt).
  apply (list_elem_of_lookup_2 _ 3%nat). reflexivity.
Defined.

Lemma successful_selection_is_a_real_answer_witness :
  let r := Demo.run_with (Demo.reply 404 "") in
  result r = Ok {| sel_version := V1beta; sel_model := "gemini-2.0-flash";
                   sel_text := "hello" |} /\
  last (trace r) = Some (demo_generation V1beta "gemini-2.0-flash").
Proof.
  intros r. split; [reflexivity|].
  apply (successful_selection_is_a_real_answer
           Demo.parse Demo.stringify
           (Demo.table_fetch (Demo.upstream (Demo.reply 404 ""))) "key" "prompt" tt
           {| sel_version := V1beta; sel_model := "gemini-2.0-flash";
              sel_text := "hello" |}).
  reflexivity.
Defined.

Lemma selection_throws_exhaustion_or_a_fatal_generation_error_witness :
  let r := Demo.run_with (Demo.reply 401 "unauthorized") in
  let e := Error "Gemini generateContent failed (v1beta/gemini-2.5-flash): 401 unauthorized" in
  result r = Throw e /\
  isGeminiNotFoundOrUnsupported (message e) = false.
Proof.
  intros r e. split; [reflexivity|].
  apply (selection_throws_exhaustion_or_a_fatal_generation_error
           Demo.parse Demo.stringify
           (Demo.table_fetch (Demo.upstream (Demo.reply 401 "unauthorized")))
           "key" "prompt" tt e).
  reflexivity.
Defined.

Lemma primary_success_never_contacts_secondary_witness :
  picked (result (Demo.run_with (Demo.reply 404 ""))) = Some (V1beta, "gemini-2.0-flash") /\
  list_url V1beta <> list_url V1.
Proof.
  split; [reflexivity|].
  apply (primary_success_never_contacts_secondary
           Demo.parse Demo.stringify
           (Demo.table_fetch (Demo.upstream (Demo.reply 404 ""))) "key" "prompt" tt
           {| sel_version := V1beta; sel_model := "gemini-2.0-flash";
              sel_text := "hello" |}
           (list_url V1beta) (list_init "key") 15000).
  - reflexivity.
  - reflexivity.
  - apply (list_elem_of_lookup_2 _ 0%nat). reflexivity.
Defined.

(** The one model of the catalog declares [embedContent] only: nothing
    is capable, the filter is off, and the model is asked. *)
Lemma filter_is_off_when_nothing_is_capable_witness :
  let fetch := Demo.table_fetch Demo.embedding_listed in
  let generateCapable := generateCapable_of Demo.embedding_models in
  generateCapable = ∅ /\
  skipped generateCapable "embedding-001" = false /\
  demo_generation V1beta "embedding-001" ∈
    trace (generateWithAutoPick Demo.parse_catalogs Demo.stringify fetch "key" "prompt" tt).
Proof.
  intros fetch generateCapable.
  destruct (filter_is_off_when_nothing_is_capable
              Demo.parse_catalogs Demo.stringify fetch "key" "prompt" tt
              [] [V1] V1beta eq_refl eq_refl
              Demo.embedding_models [] [] "embedding-001")
    as (Hempty & Hskip & [tail Htail]).
  - reflexivity.
  - intros m Hin _. apply list_elem_of_singleton in Hin. subst m. reflexivity.
  - reflexivity.
  - reflexivity.
  - split; [exact Hempty|]. split; [exact Hskip|].
    rewrite Htail. do 3 (apply elem_of_app; right). left.
Defined.

Lemma skipped_candidate_is_never_requested_witness :
  let generateCapable := generateCapable_of Demo.mixed_models in
  skipped generateCapable "embedding-001" = true /\
  demo_generation V1beta "embedding-001" ∉
    trace (candidate_loop Demo.parse Demo.stringify (Demo.table_fetch Demo.mixed_upstream)
                          V1beta "key" "prompt" generateCapable
                          (candidates_of (available_of Demo.mixed_models)) tt).
Proof.
  intros generateCapable. split; [reflexivity|].
  apply (skipped_candidate_is_never_requested
           Demo.parse Demo.stringify (Demo.table_fetch Demo.mixed_upstream) "key" "prompt").
  reflexivity.
Defined.

Lemma empty_catalogs_give_exhaustion_witness :
  let script := [Demo.reply 200 "{}"; Demo.reply 200 "{}"] in
  generateWithAutoPick Demo.parse Demo.stringify Demo.scripted_fetch "key" "prompt" script =
  MkRun (Throw exhausted) [] [demo_listing V1beta; demo_listing V1].
Proof.
  intros script.
  apply (empty_catalogs_give_exhaustion Demo.parse Demo.stringify Demo.scripted_fetch
           "key" "prompt" script [] []); reflexivity.
Defined.

Lemma marker_in_body_continues_whatever_the_status_witness :
  let body := "User location is not supported for the API use." in
  let fetch := Demo.table_fetch (Demo.upstream (Demo.reply 400 body)) in
  isGeminiNotFoundOrUnsupported
    (generate_failed_msg V1beta "gemini-2.5-flash" {| status := 400; raw := body |}) = true /\
  picked (result (Demo.run_with (Demo.reply 400 body))) = Some (V1beta, "gemini-2.0-flash").
Proof.
  intros body fetch.
  destruct (marker_in_body_continues_whatever_the_status
              Demo.parse Demo.stringify fetch "key" "prompt" V1beta
              (generateCapable_of Demo.catalog_models) "gemini-2.5-flash"
              ["gemini-2.0-flash"] tt {| status := 400; raw := body |})
    as [Hmsg _]; [reflexivity.. |].
  split; [exact Hmsg | reflexivity].
Defined.

Lemma handler_rejects_before_any_request_witness :
  let h := Fixture.handle (Demo.reply 404 "") (Fixture.ask "GET" None) (Some "key") in
  res_status (response h) = 405 /\ after h = tt.
Proof.
  intros h.
  destruct (handler_rejects_before_any_request
              Demo.parse Demo.stringify
              (Demo.table_fetch (Demo.upstream (Demo.reply 404 "")))
              Fixture.ascii_length Fixture.ascii_slice0
              (Fixture.ask "GET" None) (Some "key") tt) as (Hafter & _ & Hst);
    [now left|].
  split; [exact Hst | exact Hafter].
Defined.

Lemma handler_200_carries_a_real_answer_witness :
  let req := Fixture.ask "POST" (Some Fixture.question_body) in
  let h := Fixture.handle (Demo.reply 404 "") req (Some "key") in
  response h = {| res_status := 200; res_json := JObj [("answer", JStr "hello")] |} /\
  exists key a qn sel,
    is_post (req_method req) = true /\
    nonblank_string (Js.prop (req_body req) "articleText") = Some a /\
    nonblank_string (Js.prop (req_body req) "question") = Some qn /\
    truthy_key (Some "key") = Some key /\
    result (generateWithAutoPick Demo.parse Demo.stringify
              (Demo.table_fetch (Demo.upstream (Demo.reply 404 ""))) key
              (build_prompt (Fixture.ascii_slice0 8000 (normalizeText a))
                            (Fixture.ascii_slice0 1000 (normalizeText qn))) tt) = Ok sel /\
    res_json (response h) = JObj [("answer", JStr (JsText.trim (sel_text sel)))] /\
    JsText.trim (sel_text sel) <> "" /\
    JsText.trim (JsText.trim (sel_text sel)) = JsText.trim (sel_text sel).
Proof.
  intros req h. split; [reflexivity|].
  apply (handler_200_carries_a_real_answer
           Demo.parse Demo.stringify
           (Demo.table_fetch (Demo.upstream (Demo.reply 404 "")))
           Fixture.ascii_length Fixture.ascii_slice0 req (Some "key") tt).
  reflexivity.
Defined.

Lemma handler_500_reports_the_selection_error_witness :
  let h := Fixture.handle (Demo.reply 401 "unauthorized")
                          (Fixture.ask "POST" (Some Fixture.question_body)) (Some "key") in
  response h =
    {| res_status := 500;
       res_json := json_error
         "Gemini generateContent failed (v1beta/gemini-2.5-flash): 401 unauthorized" |} /\
  exists e : JsError,
    res_json (response h) = json_error (message e) /\
    isGeminiNotFoundOrUnsupported (message e) = false.
Proof.
  intros h. split; [reflexivity|].
  destruct (handler_500_reports_the_selection_error
              Demo.parse Demo.stringify
              (Demo.table_fetch (Demo.upstream (Demo.reply 401 "unauthorized")))
              Fixture.ascii_length Fixture.ascii_slice0
              (Fixture.ask "POST" (Some Fixture.question_body)) (Some "key") tt
              "  Rust 1.80   was released today. " "What was released?" "key")
    as (e & _ & Hjson & _ & Hnf); [reflexivity.. |].
  exists e. split; [exact Hjson | exact Hnf].
Defined.

Lemma handler_requests_carry_the_key_witness :
  exists key : string,
    truthy_key (Some "key") = Some key /\
    key <> "" /\
    ("x-goog-api-key", key) ∈ headers (list_init "key") /\
    ((exists v, list_url V1beta = list_url v /\ method (list_init "key") = "GET" /\
                15000 = 15000) \/
     (exists v model, list_url V1beta = generate_url v model /\
                      method (list_init "key") = "POST" /\ 15000 = 30000)).
Proof.
  apply (handler_requests_carry_the_key
           Demo.parse Demo.stringify
           (Demo.table_fetch (Demo.upstream (Demo.reply 404 "")))
           Fixture.ascii_length Fixture.ascii_slice0
           (Fixture.ask "POST" (Some Fixture.question_body)) (Some "key") tt).
  apply (list_elem_of_lookup_2 _ 4%nat). reflexivity.
Defined.

Example handler_samples :
  let post := Fixture.ask "POST" in
  res_status (response (Fixture.handle (Demo.reply 404 "") (post None) (Some "key"))) = 400 /\
  res_status (response (Fixture.handle (Demo.reply 404 "")
                          (post (Some (JObj [("articleText", JStr " ");
                                             ("question", JStr "q")]))) None)) = 400 /\
  res_status (response (Fixture.handle (Demo.reply 404 "")
                          (post (Some Fixture.question_body)) (Some ""))) = 500 /\
  res_status (response (Fixture.handle (Demo.reply 404 "")
                          (Fixture.ask "GET" (Some Fixture.question_body)) None)) = 405.
Proof. repeat split; reflexivity. Qed.


(** ** The order of the versions *)

Lemma generate_url_not_listing (v v' : GeminiApiVersion) (model : string) :
  String.eqb (generate_url v model) (list_url v') = false.
Proof.
  apply String.eqb_neq. unfold generate_url, list_url. intros H.
  apply String.app_inj in H.
  assert (Hlen : forall x : string, "/models/" +:+ model +:+ ":generateContent" <> "/models").
  { intros _ Hx. apply (f_equal String.length) in Hx.
    change ("/models/" +:+ model +:+ ":generateContent")
      with ("/models" +:+ "/" +:+ model +:+ ":generateContent") in Hx.
    rewrite !string_app_length in Hx. cbn in Hx. lia. }
  destruct v, v'; unfold version_str in H.
  - apply String.app_inj in H. now apply (Hlen "").
  - rewrite !string_app_cons in H. discriminate.
  - rewrite !string_app_cons in H. discriminate.
  - apply String.app_inj in H. now apply (Hlen "").
Qed.

Lemma listings_app (tr1 tr2 : list Event) :
  listings (tr1 ++ tr2) = listings tr1 ++ listings tr2.
Proof. unfold listings. apply omap_app. Qed.

Lemma listings_none (tr : list Event) :
  (forall ev, ev ∈ tr -> listed_version ev = None) -> listings tr = [].
Proof.
  induction tr as [|ev tr IH]; intros H; [reflexivity|].
  unfold listings in *. cbn [omap list_omap]. rewrite (H ev) by left.
  apply IH. intros ev' Hin. apply H. now right.
Qed.

Section VersionOrder.

Context {World : Type}.
Variable JSON_parse : string -> string + JSON.
Variable JSON_stringify : JSON -> string.
Variable fetch : string -> RequestInit -> Z -> World -> Outcome * World.
Variables (apiKey prompt : string).

Lemma candidate_loop_lists_nothing (v : GeminiApiVersion) (gc : gset string)
      (cs : list string) (w : World) :
  listings (trace (candidate_loop JSON_parse JSON_stringify fetch v apiKey prompt gc cs w))
  = [].
Proof.
  apply listings_none. intros [url init t|ms|msg] Hin; try reflexivity.
  apply candidate_loop_requests in Hin as (c & _ & _ & [= -> _ _]).
  cbn [listed_version]. now rewrite !generate_url_not_listing.
Qed.

Lemma version_body_lists_itself (v : GeminiApiVersion) (w : World) :
  listings (trace (version_body JSON_parse JSON_stringify fetch apiKey prompt v w)) = [v].
Proof.
  rewrite version_body_run. cbn zeta. rewrite listModels_run. cbn [result final trace].
  destruct (listing_result JSON_parse v _) as [models|e]; cbn [trace].
  - change (?x :: ?l) with ([x] ++ l). rewrite listings_app, candidate_loop_lists_nothing.
    now destruct v.
  - now destruct v.
Qed.

(** X20. The versions are asked for their catalog in the fixed order,
    each at most once: the listings of a run are [v1beta] alone or
    [v1beta] then [v1], and [v1] is listed only when [v1beta] gave no
    selection. *)
Theorem versions_are_listed_in_order (w : World) :
  let r := generateWithAutoPick JSON_parse JSON_stringify fetch apiKey prompt w in
  let first := version_body JSON_parse JSON_stringify fetch apiKey prompt V1beta w in
  listings (trace r) =
  match result first with
  | Ok None => [V1beta; V1]
  | _ => [V1beta]
  end.
Proof.
  intros r first. subst r. unfold generateWithAutoPick.
  rewrite bind_run.
  assert (Hloop : listings (trace (version_loop JSON_parse JSON_stringify fetch apiKey
                                                prompt [V1beta; V1] w)) =
                  match result first with Ok None => [V1beta; V1] | _ => [V1beta] end).
  { rewrite version_loop_cons, bind_run. fold first.
    pose proof (version_body_lists_itself V1beta w) as H1. fold first in H1.
    destruct (result first) as [[sel|]|e]; cbn [trace].
    - cbn [mret M_ret ret trace]. now rewrite app_nil_r.
    - rewrite listings_app, H1, version_loop_cons, bind_run.
      pose proof (version_body_lists_itself V1 (final first)) as H2.
      destruct (result (version_body _ _ _ _ _ V1 (final first))) as [[sel|]|e];
        cbn [trace version_loop mret M_ret ret]; rewrite ?app_nil_r; now rewrite H2.
    - exact H1. }
  destruct (result (version_loop _ _ _ _ _ [V1beta; V1] w)) as [[sel|]|e]; cbn [trace].
  - cbn [mret M_ret ret trace]. now rewrite app_nil_r.
  - cbn [throw trace]. now rewrite app_nil_r.
  - exact Hloop.
Qed.

End VersionOrder.

Example listings_on_fallback :
  listings (trace (generateWithAutoPick Demo.parse Demo.stringify Demo.scripted_fetch
                     "key" "prompt"
                     [Demo.reply 503 "unavailable"; Demo.reply 200 Demo.catalog_raw;
                      Demo.reply 200 Demo.answer_raw])) = [V1beta; V1] /\
  listings (trace (Demo.run_with (Demo.reply 404 ""))) = [V1beta].
Proof. split; reflexivity. Qed.
